(** * Verification of the sandbox agent proof-of-concept

    A shallow embedding of the two source modules that carry the logic of
    the repository:

    - [src/app/api/agent/route.ts]: the network-safety filter
      ([isPrivateHostname]), the [fetchJson] and [runInSandbox] tools and
      the [POST] handler with its streaming adapter;
    - [src/lib/agent-traces.ts]: the bounded in-memory trace store.

    Conventions of the embedding.

    - A JavaScript string is a [string]: a sequence of code units below
      256 (the Latin-1 range of UTF-16).  [String.length] is the [length]
      property.
    - An [async] function that can reject is a function into [outcome]:
      [Returned v] for a fulfilled promise, [Threw e] for a rejected one.
    - [Date.now()], [randomUUID()], the sandbox backend, the model stream
      and the network are inputs of the functions that read them.
    - The module-level [traceStore] object is passed and returned
      explicitly. *)

From Stdlib Require Import String Ascii ZArith NArith List Bool Lia DecimalString.
From stdpp Require Import gmap strings list.

Local Open Scope N_scope.
Set Warnings "-register-all".

(** ** JavaScript strings *)

Module JS.

(** Code unit of a character. *)
Definition code (c : ascii) : N := N_of_ascii c.

(** The class [\d] of a regular expression without the [u] flag. *)
Definition isDigit (c : ascii) : bool := (48 <=? code c) && (code c <=? 57).

(** White space and line terminators removed by [String.prototype.trim],
    restricted to code units below 256: TAB, LF, VT, FF, CR, SP, NBSP. *)
Definition isWhiteSpace (c : ascii) : bool :=
  match code c with
  | 9 | 10 | 11 | 12 | 13 | 32 | 160 => true
  | _ => false
  end.

(** Lower-case mapping of one code unit: [A..Z] and the Latin-1 capitals
    [U+00C0..U+00DE] except the multiplication sign [U+00D7]. *)
Definition lowerChar (c : ascii) : ascii :=
  let n := code c in
  if ((65 <=? n) && (n <=? 90))
     || ((192 <=? n) && (n <=? 222) && negb (n =? 215))
  then ascii_of_N (n + 32) else c.

Fixpoint toLowerCase (s : string) : string :=
  match s with
  | EmptyString => EmptyString
  | String c r => String (lowerChar c) (toLowerCase r)
  end.

(** [s.startsWith(p)]. *)
Fixpoint startsWith (s p : string) : bool :=
  match p, s with
  | EmptyString, _ => true
  | String a p', String b s' => if decide (a = b) then startsWith s' p' else false
  | String _ _, EmptyString => false
  end.

(** [s.endsWith(p)]: the [p.length] code units that end at [s.length]
    are compared with [p]; a start below zero is a mismatch. *)
Definition endsWith (s p : string) : bool :=
  let n := String.length s in
  let k := String.length p in
  if decide (k ≤ n)%nat
  then bool_decide (String.substring (n - k) k s = p)
  else false.

(** [s.includes(c)] for a one-character search string. *)
Fixpoint includes (s : string) (c : ascii) : bool :=
  match s with
  | EmptyString => false
  | String b r => if decide (b = c) then true else includes r c
  end.

(** [s.trimStart()]. *)
Fixpoint trimStart (s : string) : string :=
  match s with
  | String c r => if isWhiteSpace c then trimStart r else s
  | EmptyString => EmptyString
  end.

(** [s.trimEnd()]: a character is kept when it is not white space or
    when something is kept after it. *)
Fixpoint trimEnd (s : string) : string :=
  match s with
  | EmptyString => EmptyString
  | String c r =>
      match trimEnd r with
      | EmptyString => if isWhiteSpace c then EmptyString else String c EmptyString
      | String _ _ as t => String c t
      end
  end.

(** [s.trim()]. *)
Definition trim (s : string) : string := trimEnd (trimStart s).

(** Truthiness of a string: only the empty string is falsy. *)
Definition truthy (s : string) : bool :=
  match s with EmptyString => false | String _ _ => true end.

(** [a || b] on strings. *)
Definition or_else (a b : string) : string := if truthy a then a else b.

(** [s.slice(0, n)] for [0 <= n]. *)
Definition slice0 (n : nat) (s : string) : string := String.substring 0 n s.

(** [Number(s)] for a string [s] of decimal digits.  The exact value is
    kept: the source only compares the result with integers below 256,
    and a double equals such an integer only when the exact value does. *)
Fixpoint parseDigits (acc : N) (s : string) : N :=
  match s with
  | EmptyString => acc
  | String c r => parseDigits (acc * 10 + (code c - 48)) r
  end.

Definition Number (s : string) : N := parseDigits 0 s.

(** The result of awaiting a promise. *)
Inductive outcome (A : Type) : Type :=
| Returned (a : A)
| Threw (e : string).
Arguments Returned {A} a.
Arguments Threw {A} e.

Definition bind {A B : Type} (m : outcome A) (k : A -> outcome B) : outcome B :=
  match m with
  | Returned a => k a
  | Threw e => Threw e
  end.

End JS.

Notation "'await' x <- m ; k" := (JS.bind m (fun x => k))
  (at level 10, x name, m at level 100, k at level 200).

(** ** The network-safety filter (route.ts, isPrivateHostname) *)

Module Filter.
Import JS.

Definition PRIVATE_HOSTNAMES : gset string :=
  {[ "localhost"; "0.0.0.0"; "::1" ]}.

(** The longest run of digits at the head of [s], and what follows it:
    the greedy [\d+] never has to give a digit back, because each group
    is followed by [\.] or by the end of the input. *)
Fixpoint spanDigits (s : string) : string * string :=
  match s with
  | String c r =>
      if isDigit c
      then let '(d, t) := spanDigits r in (String c d, t)
      else (EmptyString, s)
  | EmptyString => (EmptyString, EmptyString)
  end.

(** One capture group [(\d+)]. *)
Definition digitGroup (s : string) : option (string * string) :=
  match spanDigits s with
  | (String c d, t) => Some (String c d, t)
  | (EmptyString, _) => None
  end.

(** The literal [\.]. *)
Definition dot (s : string) : option string :=
  match s with
  | String c r => if decide (c = "."%char) then Some r else None
  | EmptyString => None
  end.

(** [hostname.match(/^(\d+)\.(\d+)\.(\d+)\.(\d+)$/)], without the
    full-match entry: the four captured groups, or [None] for [null]. *)
Definition ipv4Match (hostname : string) : option (list string) :=
  '(a, r) ← digitGroup hostname;
  r ← dot r;
  '(b, r) ← digitGroup r;
  r ← dot r;
  '(c, r) ← digitGroup r;
  r ← dot r;
  '(d, r) ← digitGroup r;
  match r with
  | EmptyString => Some [a; b; c; d]
  | String _ _ => None
  end.

(** The body of [if (ipv4Match) { ... }] on [const [a, b] = octets]. *)
Definition privateOctets (a b : N) : bool :=
  if (a =? 10) || (a =? 127) || (a =? 0) then true
  else if (a =? 192) && (b =? 168) then true
  else if (a =? 172) && (16 <=? b) && (b <=? 31) then true
  else if (a =? 169) && (b =? 254) then true
  else false.

Definition isPrivateHostname (hostname : string) : bool :=
  if bool_decide (hostname ∈ PRIVATE_HOSTNAMES) then true
  else if endsWith hostname ".local" || endsWith hostname ".internal" then true
  else
    let viaIpv4 :=
      match ipv4Match hostname with
      | Some groups =>
          match Number <$> groups with
          | a :: b :: _ => privateOctets a b
          | _ => false
          end
      | None => false
      end in
    if viaIpv4 then true
    else if includes hostname ":"%char then
      let lower := toLowerCase hostname in
      if startsWith lower "fe80:" || startsWith lower "fc" || startsWith lower "fd"
      then true else false
    else false.

End Filter.

(** *** What the specification says about the filter *)

Module FilterSpec.
Import JS.

(** [h] ends in [suffix]. *)
Definition ends_in (h suffix : string) : Prop := exists p, h = p +:+ suffix.

(** [h] starts with [pre]. *)
Definition starts_with (h pre : string) : Prop := exists r, h = pre +:+ r.

(** [h] contains the character [c]. *)
Definition contains (h : string) (c : ascii) : Prop :=
  exists l r, h = l +:+ String c r.

Fixpoint allDigits (s : string) : bool :=
  match s with
  | EmptyString => true
  | String c r => isDigit c && allDigits r
  end.

(** A decimal-digit group: one digit or more, and nothing else. *)
Definition digit_group (g : string) : Prop := g <> EmptyString /\ allDigits g = true.

(** [h] is the dotted quad [a.b.c.d] of four decimal-digit groups. *)
Definition dotted_quad (h a b c d : string) : Prop :=
  digit_group a /\ digit_group b /\ digit_group c /\ digit_group d /\
  h = a +:+ "." +:+ b +:+ "." +:+ c +:+ "." +:+ d.

(** The blocked IPv4 ranges, on the values of the first two octets. *)
Definition blocked_range (a b : N) : Prop :=
  a = 10 \/ a = 127 \/ a = 0 \/
  (a = 192 /\ b = 168) \/
  (a = 169 /\ b = 254) \/
  (a = 172 /\ 16 <= b <= 31).

(** What may follow a digit group: the end, or a character that is not
    a digit. *)
Definition headNotDigit (t : string) : Prop :=
  match t with
  | EmptyString => True
  | String c _ => isDigit c = false
  end.

(** The rejection rules of the filter, rule by rule. *)
Definition rejected (h : string) : Prop :=
  (h = "localhost" \/ h = "0.0.0.0" \/ h = "::1") \/
  (ends_in h ".local" \/ ends_in h ".internal") \/
  (exists a b c d, dotted_quad h a b c d /\ blocked_range (Number a) (Number b)) \/
  (contains h ":"%char /\
   (starts_with (toLowerCase h) "fe80:" \/
    starts_with (toLowerCase h) "fc" \/
    starts_with (toLowerCase h) "fd")).

End FilterSpec.

(** ** JavaScript values and the built-ins the source calls *)

Module Value.
Import JS.

(** The values that reach the trace store and the request parser: the
    JSON values, [undefined], and [BigInt] as the one kind of value on
    which [JSON.stringify] throws.  A number is an integer; the printing
    functions below give it as plain digits, as the built-ins do for
    integers of magnitude below 10^21. *)
Inductive jsvalue : Type :=
| JUndefined
| JNull
| JBool (b : bool)
| JNum (n : Z)
| JBigInt (n : Z)
| JStr (s : string)
| JArr (items : list jsvalue)
| JObj (fields : list (string * jsvalue)).

(** The built-ins of the host that the trace store calls.
    [JSON_stringify v] is [Returned (Some s)] for a string result,
    [Returned None] when the result is [undefined], and [Threw e] when
    serialisation throws. *)
Class Builtins : Type := {
  JSON_stringify : jsvalue -> outcome (option string);
  String_ : jsvalue -> string
}.

(** *** An instance of the built-ins on [jsvalue] *)

Definition hexDigit (n : N) : ascii :=
  if n <? 10 then ascii_of_N (48 + n) else ascii_of_N (87 + n).

Definition dquote : string := String "034"%char EmptyString.
Definition backslash : string := String "092"%char EmptyString.

(** One code unit of a quoted JSON string. *)
Definition quoteChar (c : ascii) : string :=
  match code c with
  | 34 => backslash +:+ dquote
  | 92 => backslash +:+ backslash
  | 8 => backslash +:+ "b"
  | 9 => backslash +:+ "t"
  | 10 => backslash +:+ "n"
  | 12 => backslash +:+ "f"
  | 13 => backslash +:+ "r"
  | n => if n <? 32
         then backslash +:+ "u00" +:+ String (hexDigit (n / 16)) (String (hexDigit (n mod 16)) "")
         else String c ""
  end.

Fixpoint quoteBody (s : string) : string :=
  match s with
  | EmptyString => EmptyString
  | String c r => quoteChar c +:+ quoteBody r
  end.

Definition quote (s : string) : string := dquote +:+ quoteBody s +:+ dquote.

Definition commaJoin (parts : list string) : string :=
  match parts with
  | [] => ""
  | p :: ps => foldl (fun acc q => acc +:+ "," +:+ q) p ps
  end.

Definition showZ (n : Z) : string :=
  match n with
  | Z0 => "0"
  | Zpos p => NilEmpty.string_of_uint (Pos.to_uint p)
  | Zneg p => "-" +:+ NilEmpty.string_of_uint (Pos.to_uint p)
  end.

(** [JSON.stringify]: an [undefined] array element prints as [null], an
    [undefined] property is left out, a [BigInt] anywhere throws. *)
Fixpoint stringify (v : jsvalue) : outcome (option string) :=
  match v with
  | JUndefined => Returned None
  | JNull => Returned (Some "null")
  | JBool b => Returned (Some (if b then "true" else "false"))
  | JNum n => Returned (Some (showZ n))
  | JBigInt _ => Threw "Do not know how to serialize a BigInt"
  | JStr s => Returned (Some (quote s))
  | JArr items =>
      let fix elems (l : list jsvalue) : outcome (list string) :=
        match l with
        | [] => Returned []
        | x :: r =>
            await sx <- stringify x;
            await sr <- elems r;
            Returned (default "null" sx :: sr)
        end in
      await parts <- elems items;
      Returned (Some ("[" +:+ commaJoin parts +:+ "]"))
  | JObj fields =>
      let fix props (l : list (string * jsvalue)) : outcome (list string) :=
        match l with
        | [] => Returned []
        | (k, x) :: r =>
            await sx <- stringify x;
            await sr <- props r;
            Returned match sx with
                     | Some s => (quote k +:+ ":" +:+ s) :: sr
                     | None => sr
                     end
        end in
      await parts <- props fields;
      Returned (Some ("{" +:+ commaJoin parts +:+ "}"))
  end.

(** [String(v)]. *)
Fixpoint toString (v : jsvalue) : string :=
  match v with
  | JUndefined => "undefined"
  | JNull => "null"
  | JBool b => if b then "true" else "false"
  | JNum n => showZ n
  | JBigInt n => showZ n
  | JStr s => s
  | JArr items =>
      commaJoin (map (fun x => match x with
                               | JUndefined | JNull => ""
                               | _ => toString x
                               end) items)
  | JObj _ => "[object Object]"
  end.

Definition hostBuiltins : Builtins :=
  {| JSON_stringify := stringify; String_ := toString |}.


End Value.

(** ** The trace store (agent-traces.ts) *)

Module Traces.
Import JS Value.

Inductive TraceEvent : Type :=
| ToolCall (toolCallId toolName : string) (input : jsvalue) (timestamp : Z)
| ToolResult (toolCallId toolName : string) (output : jsvalue) (timestamp : Z)
| ToolError (toolCallId toolName : option string) (error : string) (timestamp : Z)
| ToolOutputDenied (toolCallId toolName : string) (timestamp : Z).

Record AgentTrace : Type := {
  id : string;
  prompt : string;
  model : string;
  sandboxId : string;
  startedAt : Z;
  finishedAt : option Z;
  events : list TraceEvent
}.

Record TraceStore : Type := {
  traces : gmap string AgentTrace;
  order : list string
}.

Definition MAX_TRACES : nat := 25.
Definition MAX_SERIALIZED_LENGTH : nat := 4000.

(** The text appended to a truncated payload. *)
Definition TRUNCATED : string := "... [truncated]".

(** The store of a fresh process. *)
Definition emptyStore : TraceStore := {| traces := ∅; order := [] |}.

Section WithBuiltins.
Context `{Builtins}.

(** [serialized.length] on an [undefined] result throws inside the
    [try], so that case ends in the [catch] as well. *)
Definition trimIfNeeded (value : jsvalue) : jsvalue :=
  match JSON_stringify value with
  | Returned (Some serialized) =>
      if decide (String.length serialized ≤ MAX_SERIALIZED_LENGTH)%nat
      then value
      else JStr (slice0 MAX_SERIALIZED_LENGTH serialized +:+ TRUNCATED)
  | Returned None => JStr (String_ value)
  | Threw _ => JStr (String_ value)
  end.

(** What [appendTraceEvent] pushes for an event. *)
Definition storedEvent (event : TraceEvent) : TraceEvent :=
  match event with
  | ToolCall c n input t => ToolCall c n (trimIfNeeded input) t
  | ToolResult c n output t => ToolResult c n (trimIfNeeded output) t
  | ToolError _ _ _ _ | ToolOutputDenied _ _ _ => event
  end.

Definition pushEvent (e : TraceEvent) (trace : AgentTrace) : AgentTrace :=
  {| id := id trace; prompt := prompt trace; model := model trace;
     sandboxId := sandboxId trace; startedAt := startedAt trace;
     finishedAt := finishedAt trace; events := events trace ++ [e] |}.

Definition appendTraceEvent (traceId : string) (event : TraceEvent)
    (st : TraceStore) : TraceStore :=
  match traces st !! traceId with
  | None => st
  | Some trace =>
      {| traces := <[traceId := pushEvent (storedEvent event) trace]> (traces st);
         order := order st |}
  end.
End WithBuiltins.

(** The [while] loop of [enforceLimit], one element of [order] per
    iteration: [shift] removes the head, and the head is deleted from
    the map when it is truthy. *)
Fixpoint enforceLimit_loop (order : list string)
    (traces : gmap string AgentTrace) : TraceStore :=
  match order with
  | oldest :: rest =>
      if decide (MAX_TRACES < length order)%nat
      then enforceLimit_loop rest
             (if truthy oldest then delete oldest traces else traces)
      else {| traces := traces; order := order |}
  | [] => {| traces := traces; order := [] |}
  end.

Definition enforceLimit (st : TraceStore) : TraceStore :=
  enforceLimit_loop (order st) (traces st).

Definition newTrace (id prompt model sandboxId : string) (now : Z) : AgentTrace :=
  {| id := id; prompt := prompt; model := model; sandboxId := sandboxId;
     startedAt := now; finishedAt := None; events := [] |}.

(** [startTrace(params)] at time [now]; the returned trace is
    [newTrace]. *)
Definition startTrace (id prompt model sandboxId : string) (now : Z)
    (st : TraceStore) : TraceStore :=
  enforceLimit
    {| traces := <[id := newTrace id prompt model sandboxId now]> (traces st);
       order := order st ++ [id] |}.

Definition setFinished (now : Z) (trace : AgentTrace) : AgentTrace :=
  {| id := id trace; prompt := prompt trace; model := model trace;
     sandboxId := sandboxId trace; startedAt := startedAt trace;
     finishedAt := Some now; events := events trace |}.

(** [finishTrace(traceId)] at time [now]. *)
Definition finishTrace (traceId : string) (now : Z) (st : TraceStore) : TraceStore :=
  match traces st !! traceId with
  | None => st
  | Some trace =>
      {| traces := <[traceId := setFinished now trace]> (traces st);
         order := order st |}
  end.

(** [getTrace(traceId)]; [None] is [null]. *)
Definition getTrace (traceId : string) (st : TraceStore) : option AgentTrace :=
  traces st !! traceId.

(** A call of one of the exported functions. *)
Inductive call : Type :=
| CallStart (id prompt model sandboxId : string) (now : Z)
| CallAppend (traceId : string) (event : TraceEvent)
| CallFinish (traceId : string) (now : Z)
| CallGet (traceId : string).

Definition step `{Builtins} (st : TraceStore) (c : call) : TraceStore :=
  match c with
  | CallStart id prompt model sandboxId now => startTrace id prompt model sandboxId now st
  | CallAppend traceId event => appendTraceEvent traceId event st
  | CallFinish traceId now => finishTrace traceId now st
  | CallGet _ => st
  end.

(** The store after a sequence of calls. *)
Definition run `{Builtins} (calls : list call) (st : TraceStore) : TraceStore :=
  foldl step st calls.

(** The ids given to [startTrace], in call order. *)
Fixpoint startedIds (calls : list call) : list string :=
  match calls with
  | [] => []
  | CallStart id _ _ _ _ :: r => id :: startedIds r
  | _ :: r => startedIds r
  end.

(** One [startTrace] call for each id of [ids], in order. *)
Definition starts (ids : list string) : list call :=
  map (fun i => CallStart i "p" "m" "s" 0) ids.

(** Twenty-five distinct non-empty ids. *)
Definition ids25 : list string :=
  [ "a"; "b"; "c"; "d"; "e"; "f"; "g"; "h"; "i"; "j"; "k"; "l"; "m";
    "n"; "o"; "p"; "q"; "r"; "s"; "t"; "u"; "v"; "w"; "x"; "y" ].

End Traces.

(** *** What the specification says about the trace store *)

Module TraceSpec.
Import JS Value Traces FilterSpec.

(** The ids that are to be present after the starts [ids]: the
    [MAX_TRACES] most recent ones. *)
Definition retained (ids : list string) : list string :=
  drop (length ids - MAX_TRACES) ids.

(** The store holds the traces of [retained ids], in that order, each
    under its own id. *)
Definition tracks (ids : list string) (st : TraceStore) : Prop :=
  order st = retained ids /\
  (forall k, is_Some (traces st !! k) <-> k ∈ order st) /\
  (forall k t, traces st !! k = Some t -> id t = k).

(** After the starts [ids], [getTrace] is absent for the oldest excess
    ids and present for the [MAX_TRACES] most recent ones. *)
Definition evicts_oldest (ids : list string) (st : TraceStore) : Prop :=
  forall k i, ids !! k = Some i ->
    ((k < length ids - MAX_TRACES)%nat -> getTrace i st = None) /\
    ((length ids - MAX_TRACES ≤ k)%nat ->
     exists t, getTrace i st = Some t /\ id t = i).

(** The store invariant: at most [MAX_TRACES] entries, and the same ids
    in the map and in the insertion-order list. *)
Definition bounded_and_aligned (st : TraceStore) : Prop :=
  (size (traces st) ≤ MAX_TRACES)%nat /\
  dom (traces st) = list_to_set (order st).



(** The finish timestamp is set at most once: a second [finishTrace]
    leaves the value of the first. *)
Definition finish_set_once : Prop :=
  forall (st : TraceStore) (i : string) (now1 now2 : Z),
    is_Some (getTrace i st) ->
    finishedAt <$> getTrace i (finishTrace i now2 (finishTrace i now1 st)) =
    finishedAt <$> getTrace i (finishTrace i now1 st).

End TraceSpec.

(** ** The fetchJson tool (route.ts, fetchJson and tools.fetchJson) *)

Module Fetch.
Import JS Value Filter.

(** The fields of [new URL(url)] that the source reads; [href] is
    [parsed.toString()]. *)
Record URL : Type := {
  protocol : string;
  hostname : string;
  href : string
}.

(** Why [fetch] or [response.text()] rejects: the abort signal fired
    after 10 seconds, or the network failed. *)
Inductive rejection : Type :=
| TimedOut
| NetworkFailure (message : string).

Definition rejectionMessage (r : rejection) : string :=
  match r with
  | TimedOut => "This operation was aborted"
  | NetworkFailure message => message
  end.

Record Response : Type := {
  status : Z;
  text : rejection + string
}.

(** [response.ok]. *)
Definition ok (r : Response) : bool :=
  ((200 <=? status r) && (status r <=? 299))%Z.

(** What one call of [fetchJson] sees of its environment. *)
Record Net : Type := {
  parseURL : string -> option URL;
  fetch : string -> rejection + Response;
  JSON_parse : string -> option jsvalue
}.

Definition MAX_BODY : N := 200000.

Definition fetchJson (net : Net) (url : string) : outcome jsvalue :=
  match parseURL net url with
  | None => Threw "Invalid URL"
  | Some parsed =>
      if negb (bool_decide (protocol parsed ∈ ["http:"; "https:"]))
      then Threw "Only http/https URLs are allowed."
      else if isPrivateHostname (hostname parsed)
      then Threw "Private or local addresses are not allowed."
      else
        match fetch net (href parsed) with
        | inl r => Threw (rejectionMessage r)
        | inr response =>
            if negb (ok response)
            then Threw ("Request failed with status " +:+ showZ (status response) +:+ ".")
            else
              match text response with
              | inl r => Threw (rejectionMessage r)
              | inr body =>
                  if MAX_BODY <? N.of_nat (String.length body)
                  then Threw "Response too large to parse safely."
                  else
                    match JSON_parse net body with
                    | Some data =>
                        Returned (JObj [("url", JStr (href parsed));
                                        ("status", JNum (status response));
                                        ("data", data)])
                    | None => Threw "Response was not valid JSON."
                    end
              end
        end
  end.

(** [tools.fetchJson.execute]. *)
Definition execute (net : Net) (url : string) : outcome jsvalue :=
  fetchJson net url.

(** A network in which every URL parses to the host [host] over https
    and nothing answers in time. *)
Definition silentNet (host : string) : Net :=
  {| parseURL := fun u => Some {| protocol := "https:"; hostname := host; href := u |};
     fetch := fun _ => inl TimedOut;
     JSON_parse := fun _ => None |}.

(** A network that answers every request with [status] and [body];
    only the body [null] parses. *)
Definition cannedNet (host : string) (status : Z) (body : string) : Net :=
  {| parseURL := fun u => Some {| protocol := "https:"; hostname := host; href := u |};
     fetch := fun _ => inr {| status := status; text := inr body |};
     JSON_parse := fun s => if decide (s = "null") then Some JNull else None |}.

End Fetch.

(** *** What the specification says about fetchJson *)

Module FetchSpec.
Import JS Value Filter Fetch.

(** The ways in which an invocation of the tool fails. *)
Inductive failure : Type :=
| RequestDenied
| Timeout
| UpstreamError (status : Z)
| ResponseTooLarge
| InvalidJson.

(** The URL parses, has an allowed scheme and passes the filter. *)
Definition admitted (net : Net) (url : string) (parsed : URL) : Prop :=
  parseURL net url = Some parsed /\
  protocol parsed ∈ ["http:"; "https:"] /\
  isPrivateHostname (hostname parsed) = false.

(** The invocation on [url] fails in the way [f]. *)
Definition fails (net : Net) (url : string) (f : failure) : Prop :=
  match f with
  | RequestDenied =>
      exists parsed,
        parseURL net url = Some parsed /\
        protocol parsed ∈ ["http:"; "https:"] /\
        isPrivateHostname (hostname parsed) = true
  | Timeout =>
      exists parsed, admitted net url parsed /\
        (fetch net (href parsed) = inl TimedOut \/
         exists r, fetch net (href parsed) = inr r /\ ok r = true /\
                   text r = inl TimedOut)
  | UpstreamError status =>
      exists parsed r, admitted net url parsed /\
        fetch net (href parsed) = inr r /\ ok r = false /\ Fetch.status r = status
  | ResponseTooLarge =>
      exists parsed r body, admitted net url parsed /\
        fetch net (href parsed) = inr r /\ ok r = true /\ text r = inr body /\
        200000 < N.of_nat (String.length body)
  | InvalidJson =>
      exists parsed r body, admitted net url parsed /\
        fetch net (href parsed) = inr r /\ ok r = true /\ text r = inr body /\
        N.of_nat (String.length body) <= 200000 /\
        JSON_parse net body = None
  end.

(** The message of the error thrown for a failure. *)
Definition message (f : failure) : string :=
  match f with
  | RequestDenied => "Private or local addresses are not allowed."
  | Timeout => "This operation was aborted"
  | UpstreamError status => "Request failed with status " +:+ showZ status +:+ "."
  | ResponseTooLarge => "Response too large to parse safely."
  | InvalidJson => "Response was not valid JSON."
  end.

(** The outcome is a string returned as the result of the tool. *)
Definition string_result (o : outcome jsvalue) : Prop :=
  exists s, o = Returned (JStr s).

(** Every failure comes back as a string result. *)
Definition failures_are_string_results : Prop :=
  forall net url f, fails net url f -> string_result (execute net url).

End FetchSpec.

(** ** The runInSandbox tool (route.ts, tools.runInSandbox.execute) *)

Module Tool.
Import JS.

(** A finished command with its output read. *)
Record CommandFinished : Type := {
  exitCode : Z;
  stdout : string;
  stderr : string
}.

(** [activeSandbox.runCommand(cmd, args, { cwd })] in the fixed working
    directory. *)
Definition Backend : Type := string -> list string -> outcome CommandFinished.

Definition runCode (runCommand : Backend) (code : string) : outcome string :=
  await result <- runCommand "node" ["-e"; code];
  let stdout := trim (stdout result) in
  let stderr := trim (stderr result) in
  if decide (exitCode result <> 0%Z)
  then Returned ("Execution error: " +:+ or_else (or_else stderr stdout) "unknown error")
  else Returned (or_else (or_else stdout stderr) "No output produced.").

Definition installArgs (packages : list string) : list string :=
  ["install"; "--no-fund"; "--no-audit"; "--silent"] ++ packages.

(** [execute({ code, packages })]; [packages] is [None] when the
    property is absent. *)
Definition execute (runCommand : Backend) (code : string)
    (packages : option (list string)) : outcome string :=
  match packages with
  | Some (p :: ps) =>
      await _ <- runCommand "npm" ["init"; "-y"];
      await install <- runCommand "npm" (installArgs (p :: ps));
      let installStdErr := trim (stderr install) in
      if decide (exitCode install <> 0%Z)
      then Returned ("Package install failed: " +:+ or_else installStdErr "unknown error")
      else runCode runCommand code
  | Some [] | None => runCode runCommand code
  end.

(** A backend on which [npm] commands finish with [npm] and [node]
    commands finish with [node]. *)
Definition fixedBackend (npm node : CommandFinished) : Backend :=
  fun cmd _ => if decide (cmd = "npm") then Returned npm else Returned node.

End Tool.

(** *** What the specification says about runInSandbox *)

Module ToolSpec.
Import JS Tool.

(** The first string of [candidates] that is not empty, or [fallback]. *)
Fixpoint first_nonempty (candidates : list string) (fallback : string) : string :=
  match candidates with
  | [] => fallback
  | EmptyString :: r => first_nonempty r fallback
  | s :: _ => s
  end.

(** The script is reached: no package was requested, or the install
    finished with exit code 0. *)
Definition script_runs (runCommand : Backend) (packages : option (list string)) : Prop :=
  packages = None \/ packages = Some [] \/
  exists pkgs init install,
    packages = Some pkgs /\
    runCommand "npm" ["init"; "-y"] = Returned init /\
    runCommand "npm" (installArgs pkgs) = Returned install /\
    exitCode install = 0%Z.

(** A requested install finished with a non-zero exit code. *)
Definition install_fails (runCommand : Backend) (packages : option (list string))
    (install : CommandFinished) : Prop :=
  exists pkgs init,
    packages = Some pkgs /\ pkgs <> [] /\
    runCommand "npm" ["init"; "-y"] = Returned init /\
    runCommand "npm" (installArgs pkgs) = Returned install /\
    exitCode install <> 0%Z.

(** What the tool has met: the script ran and finished with [result],
    or the install finished with a non-zero exit code. *)
Inductive situation : Type :=
| ScriptRan (result : CommandFinished)
| InstallFailed (install : CommandFinished).

Definition met (runCommand : Backend) (code : string)
    (packages : option (list string)) (sit : situation) : Prop :=
  match sit with
  | ScriptRan result =>
      script_runs runCommand packages /\
      runCommand "node" ["-e"; code] = Returned result
  | InstallFailed install => install_fails runCommand packages install
  end.

(** The string the tool is to return. *)
Definition expected (sit : situation) : string :=
  match sit with
  | ScriptRan result =>
      let out := trim (stdout result) in
      let err := trim (stderr result) in
      if decide (exitCode result = 0%Z)
      then match out with
           | String _ _ => out
           | EmptyString => first_nonempty [err] "No output produced."
           end
      else "Execution error: " +:+ first_nonempty [err; out] "unknown error"
  | InstallFailed install =>
      "Package install failed: " +:+
      first_nonempty [trim (stderr install)] "unknown error"
  end.

End ToolSpec.

(** ** The POST handler and its streaming adapter (route.ts, POST) *)

Module Route.
Import JS Value Traces.

(** [requestSchema.safeParse(body)]: the parsed prompt, or [None] when
    parsing fails.  The string checks run in the order written:
    [trim], [min(1)], [max(2000)]. *)
Fixpoint property (key : string) (fields : list (string * jsvalue)) : option jsvalue :=
  match fields with
  | [] => None
  | (k, v) :: r => if decide (k = key) then Some v else property key r
  end.

Definition requestSchema (body : jsvalue) : option string :=
  match body with
  | JObj fields =>
      match property "prompt" fields with
      | Some (JStr s) =>
          let t := trim s in
          if decide (1 ≤ String.length t)%nat
          then if decide (String.length t ≤ 2000)%nat then Some t else None
          else None
      | _ => None
      end
  | _ => None
  end.

(** The parts of [result.fullStream]; [OtherPart] stands for the part
    types the adapter ignores.  The error of a [tool-error] part is
    given as the message the adapter extracts from it. *)
Inductive StreamPart : Type :=
| TextDelta (text : string)
| PartToolCall (toolCallId toolName : string) (input : jsvalue)
| PartToolResult (toolCallId toolName : string) (output : jsvalue)
| PartToolError (toolCallId toolName : string) (error : string)
| PartToolOutputDenied (toolCallId toolName : string)
| OtherPart.

(** How the iteration of [fullStream] ends. *)
Inductive StreamEnd : Type :=
| Done
| IterationThrows (message : string).

(** What the handler does to the world outside the trace store. *)
Inductive effect : Type :=
| SandboxCreated (sandboxId : string)
| Enqueued (text : string)
| StreamClosed
| SandboxStopped (sandboxId : string)
| ErrorLogged (message : string).

Inductive response : Type :=
| JsonError (status : Z) (error : string)
| TextStream (traceId : string).

(** The readings of [Date.now()] outside the loop body. *)
Record Clock : Type := {
  atStart : Z;
  atCatch : Z;
  atFinish : Z;
  atCancel : Z
}.

(** Everything one request reads from its environment.
    - [json]: [req.json()], [None] when it rejects;
    - [apiKey]: [process.env.AI_GATEWAY_API_KEY];
    - [uuid]: [randomUUID()];
    - [created]: [Sandbox.create], rejecting, or giving [null], or a
      sandbox with its id;
    - [stopRejects]: the message with which [stop()] rejects, if it does;
    - [agentStream]: building the agent and calling [agent.stream],
      throwing before streaming begins, or giving the parts, each with
      the time at which the adapter handles it, and the end of the
      iteration;
    - [cancelAt]: the caller cancels the response stream after that
      many parts were handled, while the loop of the [start] callback
      is running.  A number above the number of parts stands for no
      cancellation here: a cancellation that arrives after the
      [finally] block has called [controller.close()], which the
      runtime still hands to the [cancel] callback while enqueued
      chunks are unread, is outside this model; by then [finishTrace]
      and [stop()] have run once. *)
Record World : Type := {
  json : option jsvalue;
  apiKey : option string;
  uuid : string;
  created : outcome (option string);
  stopRejects : option string;
  agentStream : outcome (list (StreamPart * Z) * StreamEnd);
  cancelAt : option nat;
  clock : Clock
}.

(** The state of one request while its stream is consumed: the trace
    store, whether the response stream is closed, and the effects so
    far, oldest first. *)
Record State : Type := {
  store : TraceStore;
  closed : bool;
  effects : list effect
}.

Definition emit (e : effect) (s : State) : State :=
  {| store := store s; closed := closed s; effects := effects s ++ [e] |}.

Definition onStore (f : TraceStore -> TraceStore) (s : State) : State :=
  {| store := f (store s); closed := closed s; effects := effects s |}.

Definition setClosed (s : State) : State :=
  {| store := store s; closed := true; effects := effects s |}.

(** [try { await sandbox.stop() } catch (error) { console.error(...) }]. *)
Definition stopSandbox (w : World) (sandboxId : string) (s : State) : State :=
  let s := emit (SandboxStopped sandboxId) s in
  match stopRejects w with
  | Some message => emit (ErrorLogged message) s
  | None => s
  end.

Definition CLOSED_CONTROLLER : string := "Invalid state: Controller is already closed".

Section WithBuiltins.
Context `{Builtins}.

(** The body of the [for await] loop on one part handled at time
    [now]; [enqueue] throws on a stream that is closed. *)
Definition handlePart (traceId : string) (part : StreamPart) (now : Z)
    (s : State) : string + State :=
  match part with
  | TextDelta text =>
      if closed s then inl CLOSED_CONTROLLER else inr (emit (Enqueued text) s)
  | PartToolCall c n input =>
      inr (onStore (appendTraceEvent traceId (ToolCall c n input now)) s)
  | PartToolResult c n output =>
      inr (onStore (appendTraceEvent traceId (ToolResult c n output now)) s)
  | PartToolError c n error =>
      inr (onStore (appendTraceEvent traceId (ToolError (Some c) (Some n) error now)) s)
  | PartToolOutputDenied c n =>
      inr (onStore (appendTraceEvent traceId (ToolOutputDenied c n now)) s)
  | OtherPart => inr s
  end.

(** The [cancel] callback; the stream is closed by the cancellation
    itself. *)
Definition cancel (w : World) (traceId sandboxId : string) (s : State) : State :=
  let s := setClosed s in
  let s := onStore (finishTrace traceId (atCancel (clock w))) s in
  stopSandbox w sandboxId s.

Definition cancelIfDue (w : World) (traceId sandboxId : string) (handled : nat)
    (s : State) : State :=
  if decide (cancelAt w = Some handled) then cancel w traceId sandboxId s else s.

(** The [for await] loop from the part number [handled] on: the state
    when the loop is left, and the error with which it is left. *)
Fixpoint pump (w : World) (traceId sandboxId : string) (fin : StreamEnd)
    (handled : nat) (parts : list (StreamPart * Z)) (s : State)
    : State * option string :=
  let s := cancelIfDue w traceId sandboxId handled s in
  match parts with
  | [] =>
      match fin with
      | Done => (s, None)
      | IterationThrows message => (s, Some message)
      end
  | (part, now) :: rest =>
      match handlePart traceId part now s with
      | inl message => (s, Some message)
      | inr s' => pump w traceId sandboxId fin (S handled) rest s'
      end
  end.

(** The [start] callback: the loop, its [catch] and its [finally].
    [controller.close()] throws on a closed stream, which leaves the
    [finally] block before [stop()]. *)
Definition start (w : World) (traceId sandboxId : string)
    (parts : list (StreamPart * Z)) (fin : StreamEnd) (s : State) : State :=
  let '(s, thrown) := pump w traceId sandboxId fin 0 parts s in
  let s :=
    match thrown with
    | Some message =>
        onStore (appendTraceEvent traceId
                   (ToolError None None message (atCatch (clock w)))) s
    | None => s
    end in
  let s := onStore (finishTrace traceId (atFinish (clock w))) s in
  if closed s then s
  else
    let s := emit StreamClosed (setClosed s) in
    stopSandbox w sandboxId s.

(** The outer [catch] of the handler with the error [message]. *)
Definition failed (w : World) (traceId : string) (sandbox : option string)
    (message : string) (s : State) : response * State :=
  let s := emit (ErrorLogged message) s in
  let s := onStore (finishTrace traceId (atFinish (clock w))) s in
  let s :=
    match sandbox with
    | Some sandboxId => stopSandbox w sandboxId s
    | None => s
    end in
  (JsonError 500 "Agent failed to run in sandbox.", s).

Definition MODEL : string := "openai/gpt-5-nano".

(** [POST(req)] with the consumption of its response stream: the
    response, the trace store afterwards and the effects in order. *)
Definition POST (w : World) (st : TraceStore) : response * State :=
  let s0 := {| store := st; closed := false; effects := [] |} in
  let body := default JNull (json w) in
  match requestSchema body with
  | None => (JsonError 400 "Invalid request. Expected { prompt: string }.", s0)
  | Some prompt =>
      if negb (truthy (default "" (apiKey w)))
      then (JsonError 500 "Missing AI_GATEWAY_API_KEY. Set it in your env first.", s0)
      else
        let traceId := uuid w in
        match created w with
        | Threw message => failed w traceId None message s0
        | Returned None => failed w traceId None "Sandbox unavailable." s0
        | Returned (Some sandboxId) =>
            let s := emit (SandboxCreated sandboxId) s0 in
            let s := onStore (startTrace traceId prompt MODEL sandboxId
                                (atStart (clock w))) s in
            match agentStream w with
            | Threw message => failed w traceId (Some sandboxId) message s
            | Returned (parts, fin) =>
                (TextStream traceId, start w traceId sandboxId parts fin s)
            end
        end
  end.
End WithBuiltins.

(** *** Worlds used to run the handler *)

Definition someClock : Clock :=
  {| atStart := 100; atCatch := 200; atFinish := 300; atCancel := 250 |}.

Definition promptBody (prompt : string) : jsvalue := JObj [("prompt", JStr prompt)].

Definition someParts : list (StreamPart * Z) :=
  [ (PartToolCall "c1" "runInSandbox" (JObj [("code", JStr "console.log(44*44)")]), 110%Z);
    (PartToolResult "c1" "runInSandbox" (JStr "1936"), 120%Z);
    (TextDelta "44 x 44 = ", 130%Z);
    (TextDelta "1936", 140%Z) ].

(** A request that streams to completion. *)
Definition completes : World :=
  {| json := Some (promptBody "What is 44 x 44?"); apiKey := Some "key";
     uuid := "trace-1"; created := Returned (Some "sbx-1"); stopRejects := None;
     agentStream := Returned (someParts, Done); cancelAt := None;
     clock := someClock |}.

(** The iteration throws after the parts. *)
Definition breaks : World :=
  {| json := Some (promptBody "What is 44 x 44?"); apiKey := Some "key";
     uuid := "trace-1"; created := Returned (Some "sbx-1");
     stopRejects := Some "stop failed";
     agentStream := Returned (someParts, IterationThrows "model error");
     cancelAt := None; clock := someClock |}.

(** [agent.stream] throws before streaming begins. *)
Definition failsEarly : World :=
  {| json := Some (promptBody "What is 44 x 44?"); apiKey := Some "key";
     uuid := "trace-1"; created := Returned (Some "sbx-1"); stopRejects := None;
     agentStream := Threw "gateway unreachable"; cancelAt := None;
     clock := someClock |}.

(** The caller cancels after two parts. *)
Definition cancelled : World :=
  {| json := Some (promptBody "What is 44 x 44?"); apiKey := Some "key";
     uuid := "trace-1"; created := Returned (Some "sbx-1"); stopRejects := None;
     agentStream := Returned (someParts, Done); cancelAt := Some 2%nat;
     clock := someClock |}.

(** A body without a prompt, and a valid body without the credential. *)
Definition badBody : World :=
  {| json := Some (JObj [("prompt", JStr "   ")]); apiKey := Some "key";
     uuid := "trace-1"; created := Returned (Some "sbx-1"); stopRejects := None;
     agentStream := Returned (someParts, Done); cancelAt := None;
     clock := someClock |}.

Definition noKey : World :=
  {| json := Some (promptBody "What is 44 x 44?"); apiKey := None;
     uuid := "trace-1"; created := Returned (Some "sbx-1"); stopRejects := None;
     agentStream := Returned (someParts, Done); cancelAt := None;
     clock := someClock |}.

End Route.

(** *** What the specification says about the handler *)

Module RouteSpec.
Import JS Value Route.

(** The body is a JSON object with a prompt that, trimmed, has 1 to 2000
    characters. *)
Definition valid_body (json : option jsvalue) : Prop :=
  exists fields s,
    json = Some (JObj fields) /\
    property "prompt" fields = Some (JStr s) /\
    (1 ≤ String.length (trim s) ≤ 2000)%nat.

(** A sandbox was created during the request. *)
Definition sandbox_created (sandboxId : string) (s : State) : Prop :=
  SandboxCreated sandboxId ∈ effects s.

(** [stop()] was invoked on the sandbox during the request. *)
Definition sandbox_stopped (sandboxId : string) (s : State) : Prop :=
  SandboxStopped sandboxId ∈ effects s.

(** The state of a request that has allocated nothing: the store as it
    was, the stream untouched, no effect. *)
Definition untouched (st : Traces.TraceStore) : State :=
  {| store := st; closed := false; effects := [] |}.

Definition notCreated (e : effect) : Prop :=
  match e with
  | SandboxCreated _ => False
  | _ => True
  end.

(** [s'] has the effects of [s] followed by effects that create no
    sandbox. *)
Definition grows (s s' : State) : Prop :=
  exists ext, effects s' = effects s ++ ext /\ Forall notCreated ext.

(** A stream closed by cancellation has had its sandbox stopped. *)
Definition settled (sandboxId : string) (s : State) : Prop :=
  closed s = true -> sandbox_stopped sandboxId s.

End RouteSpec.

(** *** Notions used to describe the store on arbitrary call sequences *)

Module TraceProps.
Import JS Value Traces.

(** What [startTrace] fixes of a trace for good: every field except the
    finish timestamp and the events. *)
Definition header (t : AgentTrace) : string * string * string * string * Z :=
  (id t, prompt t, model t, sandboxId t, startedAt t).

(** The ids that [enforceLimit] shifts off an order list. *)
Definition shifted (order : list string) : list string :=
  take (length order - MAX_TRACES) order.

(** The ids that [enforceLimit] deletes from the map: the shifted ones
    that are truthy. *)
Definition evicted (order : list string) (k : string) : Prop :=
  k <> "" /\ k ∈ shifted order.

(** The trace [t'] continues the trace [t]: same header, the events of
    [t] followed by more, and a finish timestamp that stays set. *)
Definition continues (t t' : AgentTrace) : Prop :=
  header t' = header t /\
  events t `prefix_of` events t' /\
  (is_Some (finishedAt t) -> is_Some (finishedAt t')).

(** The bounds that every call keeps. *)
Definition bounded (st : TraceStore) : Prop :=
  (length (order st) ≤ MAX_TRACES)%nat /\
  forall k, is_Some (getTrace k st) -> k = "" \/ k ∈ order st.

End TraceProps.

(** ** The trace lookup route (GET /api/agent/traces/[traceId]) *)

Module TraceRoute.
Import JS Value Traces.

Inductive response : Type :=
| NotFound (status : Z) (error : string)
| Found (status : Z) (trace : AgentTrace).

(** [GET(_req, { params })] once [params] is awaited. *)
Definition GET (traceId : string) (st : TraceStore) : response :=
  match getTrace traceId st with
  | None => NotFound 404 "Trace not found."
  | Some trace => Found 200 trace
  end.

End TraceRoute.

(** *** Notions used to describe what a request leaves behind *)

Module RouteProps.
Import JS Value Traces Route.

(** The texts of the text-delta parts, in stream order. *)
Definition texts (parts : list (StreamPart * Z)) : list string :=
  omap (fun '(part, _) => match part with
                          | TextDelta text => Some text
                          | _ => None
                          end) parts.

(** The events that the adapter hands to [appendTraceEvent] for the tool
    parts, in stream order. *)
Definition toolEvents (parts : list (StreamPart * Z)) : list TraceEvent :=
  omap (fun '(part, now) =>
          match part with
          | PartToolCall c n input => Some (ToolCall c n input now)
          | PartToolResult c n output => Some (ToolResult c n output now)
          | PartToolError c n error => Some (ToolError (Some c) (Some n) error now)
          | PartToolOutputDenied c n => Some (ToolOutputDenied c n now)
          | TextDelta _ | OtherPart => None
          end) parts.

(** The event of the [catch] block. *)
Definition caught (w : World) (fin : StreamEnd) : list TraceEvent :=
  match fin with
  | Done => []
  | IterationThrows message => [ToolError None None message (atCatch (clock w))]
  end.

(** What [stop()] leaves in the effects. *)
Definition stopEffects (w : World) (sandboxId : string) : list effect :=
  SandboxStopped sandboxId ::
  match stopRejects w with
  | Some message => [ErrorLogged message]
  | None => []
  end.

(** The request gets as far as the response stream: the body is valid
    with the prompt [prompt], the credential is set, the sandbox
    [sandboxId] is created and [agent.stream] gives [parts] and [fin]. *)
Definition streams (w : World) (prompt sandboxId : string)
    (parts : list (StreamPart * Z)) (fin : StreamEnd) : Prop :=
  requestSchema (default JNull (json w)) = Some prompt /\
  truthy (default "" (apiKey w)) = true /\
  created w = Returned (Some sandboxId) /\
  agentStream w = Returned (parts, fin).

(** The trace of a finished request. *)
Definition finishedTrace (w : World) (prompt sandboxId : string)
    (events : list TraceEvent) : AgentTrace :=
  {| id := uuid w; prompt := prompt; model := MODEL; sandboxId := sandboxId;
     startedAt := atStart (clock w); finishedAt := Some (atFinish (clock w));
     events := events |}.

(** The string does not begin with white space. *)
Definition headNotSpace (s : string) : Prop :=
  match s with
  | EmptyString => True
  | String c _ => isWhiteSpace c = false
  end.

(** A request for which [Sandbox.create] rejects. *)
Definition noBackend : World :=
  {| json := Some (promptBody "What is 44 x 44?"); apiKey := Some "key";
     uuid := "trace-1"; created := Threw "backend unavailable"; stopRejects := None;
     agentStream := Returned (someParts, Done); cancelAt := None;
     clock := someClock |}.

(** The caller does not cancel, or cancels while the loop of the [start]
    callback is running: after at most as many parts as the stream has. *)
Definition cancel_in_loop (w : World) (parts : list (StreamPart * Z)) : Prop :=
  match cancelAt w with
  | None => True
  | Some handled => (handled ≤ length parts)%nat
  end.

(** The store after the appends of [events] to the trace [t]. *)
Definition appendAll `{Builtins} (t : string) (events : list TraceEvent)
    (st : TraceStore) : TraceStore :=
  foldl (fun st e => appendTraceEvent t e st) st events.

End RouteProps.

(** ** The earlier handler (POST with agent.generate) *)

Module RouteV1.
Import JS Value Route.

Inductive response : Type :=
| JsonError (status : Z) (error : string)
| JsonText (text : string).

(** What one request reads from its environment: as for the streaming
    handler, with [generate] for [agent.generate] giving [result.text] or
    throwing. *)
Record World : Type := {
  json : option jsvalue;
  apiKey : option string;
  created : outcome (option string);
  stopRejects : option string;
  generate : outcome string
}.

#[global] Instance effect_eq_dec : EqDecision effect.
Proof. solve_decision. Defined.

(** The [try] block up to its [return] or its throw: the value of
    [sandbox], the outcome, and the effects. *)
Definition attempt (w : World) : option string * outcome string * list effect :=
  match created w with
  | Threw message => (None, Threw message, [])
  | Returned None => (None, Threw "Sandbox unavailable.", [])
  | Returned (Some sandboxId) => (Some sandboxId, generate w, [SandboxCreated sandboxId])
  end.

(** The [finally] block. *)
Definition release (w : World) (sandbox : option string) : list effect :=
  match sandbox with
  | Some sandboxId =>
      SandboxStopped sandboxId ::
      match stopRejects w with
      | Some message => [ErrorLogged message]
      | None => []
      end
  | None => []
  end.

Definition POST (w : World) : response * list effect :=
  match requestSchema (default JNull (json w)) with
  | None => (JsonError 400 "Invalid request. Expected { prompt: string }.", [])
  | Some prompt =>
      if negb (truthy (default "" (apiKey w)))
      then (JsonError 500 "Missing AI_GATEWAY_API_KEY. Set it in your env first.", [])
      else
        let '(sandbox, result, effects) := attempt w in
        match result with
        | Returned text => (JsonText text, effects ++ release w sandbox)
        | Threw message =>
            (JsonError 500 "Agent failed to run in sandbox.",
             effects ++ [ErrorLogged message] ++ release w sandbox)
        end
  end.

(** How often the effect [e] occurs. *)
Definition occurrences (e : effect) (l : list effect) : nat :=
  length (filter (fun x => x = e) l).

(** A request whose generation throws while [stop()] rejects. *)
Definition unlucky : World :=
  {| json := Some (promptBody "What is 44 x 44?"); apiKey := Some "key";
     created := Returned (Some "sbx-1"); stopRejects := Some "stop failed";
     generate := Threw "model error" |}.

End RouteV1.

(** *** Notions used to describe the tools *)

Module ToolProps.
Import JS Value Filter Fetch Tool.




(** A backend that rejects every command. *)
Definition deadBackend : Backend := fun _ _ => Threw "sandbox stopped".

End ToolProps.

(** * Proofs *)

(** *** String lemmas *)

Section StringFacts.
Import JS FilterSpec.

Lemma sapp_cons (c : ascii) (s t : string) : String c s +:+ t = String c (s +:+ t).
Proof. reflexivity. Qed.

Lemma sapp_nil_l (s : string) : "" +:+ s = s.
Proof. reflexivity. Qed.

Lemma sapp_nil_r (s : string) : s +:+ "" = s.
Proof. induction s as [|c s IH]; [reflexivity | rewrite sapp_cons, IH; reflexivity]. Qed.

Lemma app_assoc_s (s t u : string) : (s +:+ t) +:+ u = s +:+ (t +:+ u).
Proof. induction s as [|c s IH]; [reflexivity | rewrite !sapp_cons, IH; reflexivity]. Qed.

Lemma length_app_s (s t : string) :
  String.length (s +:+ t) = (String.length s + String.length t)%nat.
Proof. induction s as [|c s IH]; [reflexivity | rewrite sapp_cons; simpl; lia]. Qed.

Lemma substring_all (s : string) : String.substring 0 (String.length s) s = s.
Proof. induction s as [|c s IH]; [reflexivity | simpl; rewrite IH; reflexivity]. Qed.

Lemma substring_skip (q p : string) :
  String.substring (String.length q) (String.length p) (q +:+ p) = p.
Proof.
  induction q as [|c q IH]; [apply substring_all |].
  rewrite sapp_cons. simpl. exact IH.
Qed.

Lemma substring_split (s : string) (m : nat) :
  (m ≤ String.length s)%nat ->
  s = String.substring 0 m s +:+ String.substring m (String.length s - m) s.
Proof.
  revert m. induction s as [|c s IH]; intros m Hm.
  - simpl in Hm. assert (m = 0%nat) as -> by lia. reflexivity.
  - destruct m as [|m].
    + simpl. rewrite substring_all. reflexivity.
    + simpl in Hm. simpl. rewrite sapp_cons. f_equal. apply IH. lia.
Qed.

Lemma startsWith_spec (s p : string) :
  startsWith s p = true <-> starts_with s p.
Proof.
  unfold starts_with. revert s. induction p as [|a p IH]; intros s.
  - split; [intros _; exists s; reflexivity | intros _; destruct s; reflexivity].
  - destruct s as [|b s]; simpl.
    + split; [discriminate | intros [r Hr]; rewrite sapp_cons in Hr; discriminate].
    + destruct (decide (a = b)) as [->|Hne].
      * rewrite IH. split; intros [r Hr]; exists r.
        -- rewrite sapp_cons, <- Hr. reflexivity.
        -- rewrite sapp_cons in Hr. congruence.
      * split; [discriminate | intros [r Hr]; rewrite sapp_cons in Hr; congruence].
Qed.

Lemma endsWith_spec (s p : string) :
  endsWith s p = true <-> ends_in s p.
Proof.
  unfold endsWith, ends_in. split.
  - destruct (decide _) as [Hle|Hgt]; [|discriminate].
    intros H%bool_decide_eq_true.
    exists (String.substring 0 (String.length s - String.length p) s).
    pose proof (substring_split s (String.length s - String.length p)
                  ltac:(lia)) as Hs.
    replace (String.length s - (String.length s - String.length p))%nat
      with (String.length p) in Hs by lia.
    rewrite H in Hs. exact Hs.
  - intros [q ->]. rewrite length_app_s.
    destruct (decide _) as [Hle|Hgt]; [|lia].
    apply bool_decide_eq_true.
    replace (String.length q + String.length p - String.length p)%nat
      with (String.length q) by lia.
    apply substring_skip.
Qed.

Lemma includes_spec (s : string) (c : ascii) :
  includes s c = true <-> contains s c.
Proof.
  unfold contains. induction s as [|b s IH]; simpl.
  - split; [discriminate | intros ([|x l] & r & H); discriminate].
  - destruct (decide (b = c)) as [->|Hne].
    + split; [intros _; exists "", s; reflexivity | reflexivity].
    + rewrite IH. split.
      * intros (l & r & ->). exists (String b l), r. reflexivity.
      * intros ([|x l] & r & H).
        -- rewrite sapp_nil_l in H. congruence.
        -- rewrite sapp_cons in H. exists l, r. congruence.
Qed.

End StringFacts.

(** *** The IPv4 matcher finds exactly the dotted quads *)

Section Ipv4Facts.
Import JS Filter FilterSpec.

Lemma spanDigits_sound (s d t : string) :
  spanDigits s = (d, t) -> s = d +:+ t /\ allDigits d = true /\ headNotDigit t.
Proof.
  revert d t. induction s as [|c s IH]; intros d t; simpl.
  - intros [= <- <-]. repeat split.
  - destruct (isDigit c) eqn:Hc.
    + destruct (spanDigits s) as [d' t'] eqn:Hs.
      intros [= <- <-]. destruct (IH d' t' eq_refl) as (-> & Hd & Ht).
      rewrite sapp_cons. simpl. rewrite Hc, Hd. repeat split. exact Ht.
    + intros [= <- <-]. repeat split. exact Hc.
Qed.

Lemma spanDigits_complete (d t : string) :
  allDigits d = true -> headNotDigit t -> spanDigits (d +:+ t) = (d, t).
Proof.
  intros Hd Ht. induction d as [|c d IH].
  - rewrite sapp_nil_l. destruct t as [|x t]; simpl; [reflexivity |].
    simpl in Ht. rewrite Ht. reflexivity.
  - simpl in Hd. apply andb_true_iff in Hd as [Hc Hd].
    rewrite sapp_cons. simpl. rewrite Hc, (IH Hd). reflexivity.
Qed.

Lemma digitGroup_spec (s g t : string) :
  digitGroup s = Some (g, t) <->
  digit_group g /\ headNotDigit t /\ s = g +:+ t.
Proof.
  unfold digitGroup, digit_group. split.
  - destruct (spanDigits s) as [d t'] eqn:Hs.
    apply spanDigits_sound in Hs as (-> & Hd & Ht).
    destruct d as [|c d]; [discriminate |].
    intros [= <- <-]. repeat split; [discriminate | exact Hd | exact Ht].
  - intros ([Hne Hd] & Ht & ->). rewrite (spanDigits_complete g t Hd Ht).
    destruct g; [contradiction | reflexivity].
Qed.

Lemma dot_spec (s r : string) : dot s = Some r <-> s = String "." r.
Proof.
  unfold dot. destruct s as [|c s].
  - split; discriminate.
  - destruct (decide (c = "."%char)) as [->|Hne].
    + split; congruence.
    + split; [discriminate | congruence].
Qed.

Lemma dot_app (r : string) : "." +:+ r = String "." r.
Proof. reflexivity. Qed.

Lemma ipv4Match_spec (h : string) (groups : list string) :
  ipv4Match h = Some groups <->
  exists a b c d, groups = [a; b; c; d] /\ dotted_quad h a b c d.
Proof.
  unfold ipv4Match, dotted_quad. split.
  - destruct (digitGroup h) as [[a r1]|] eqn:Ha; simpl; [|discriminate].
    destruct (dot r1) as [r2|] eqn:D1; simpl; [|discriminate].
    destruct (digitGroup r2) as [[b r3]|] eqn:Hb; simpl; [|discriminate].
    destruct (dot r3) as [r4|] eqn:D2; simpl; [|discriminate].
    destruct (digitGroup r4) as [[c r5]|] eqn:Hc; simpl; [|discriminate].
    destruct (dot r5) as [r6|] eqn:D3; simpl; [|discriminate].
    destruct (digitGroup r6) as [[d r7]|] eqn:Hd; simpl; [|discriminate].
    destruct r7; [|discriminate]. intros [= <-].
    apply digitGroup_spec in Ha as (Ga & _ & ->).
    apply digitGroup_spec in Hb as (Gb & _ & ->).
    apply digitGroup_spec in Hc as (Gc & _ & ->).
    apply digitGroup_spec in Hd as (Gd & _ & ->).
    apply dot_spec in D1 as ->. apply dot_spec in D2 as ->.
    apply dot_spec in D3 as ->.
    exists a, b, c, d.
    refine (conj eq_refl (conj Ga (conj Gb (conj Gc (conj Gd _))))).
    rewrite sapp_nil_r. reflexivity.
  - intros (a & b & c & d & -> & Ga & Gb & Gc & Gd & ->).
    rewrite !dot_app.
    assert (digitGroup d = Some (d, "")) as Ed.
    { apply digitGroup_spec. rewrite sapp_nil_r. repeat split; apply Gd. }
    assert (forall g r, digit_group g ->
              digitGroup (g +:+ String "." r) = Some (g, String "." r)) as Eg.
    { intros g r Hg. apply digitGroup_spec. repeat split; apply Hg. }
    rewrite (Eg a _ Ga). simpl. rewrite (Eg b _ Gb). simpl.
    rewrite (Eg c _ Gc). simpl. rewrite Ed. reflexivity.
Qed.

Lemma privateOctets_spec (a b : N) :
  privateOctets a b = true <-> blocked_range a b.
Proof.
  unfold privateOctets, blocked_range.
  destruct (N.eqb_spec a 10), (N.eqb_spec a 127), (N.eqb_spec a 0),
    (N.eqb_spec a 192), (N.eqb_spec a 172), (N.eqb_spec a 169);
    subst; simpl; try (split; [intros _; lia | reflexivity]); try lia;
    destruct (N.eqb_spec b 168), (N.eqb_spec b 254),
      (N.leb_spec 16 b), (N.leb_spec b 31);
    simpl; split; intros; try reflexivity; try discriminate; lia.
Qed.

Lemma ipv4_branch_spec (h : string) :
  match ipv4Match h with
  | Some groups =>
      match Number <$> groups with
      | a :: b :: _ => privateOctets a b
      | _ => false
      end
  | None => false
  end = true <->
  exists a b c d, dotted_quad h a b c d /\ blocked_range (Number a) (Number b).
Proof.
  destruct (ipv4Match h) as [groups|] eqn:Hm.
  - apply ipv4Match_spec in Hm as (a & b & c & d & -> & Hq). simpl.
    rewrite privateOctets_spec. split.
    + intros Hr. exists a, b, c, d. split; assumption.
    + intros (a' & b' & c' & d' & Hq' & Hr).
      assert (ipv4Match h = Some [a; b; c; d]) as E1
        by (apply ipv4Match_spec; eauto 10).
      assert (ipv4Match h = Some [a'; b'; c'; d']) as E2
        by (apply ipv4Match_spec; eauto 10).
      rewrite E1 in E2. injection E2 as -> -> -> ->. exact Hr.
  - split; [discriminate |].
    intros (a & b & c & d & Hq & _).
    assert (ipv4Match h = Some [a; b; c; d]) as E
      by (apply ipv4Match_spec; eauto 10).
    congruence.
Qed.

Lemma private_names_spec (h : string) :
  h ∈ PRIVATE_HOSTNAMES <-> (h = "localhost" \/ h = "0.0.0.0" \/ h = "::1").
Proof.
  unfold PRIVATE_HOSTNAMES. rewrite !elem_of_union, !elem_of_singleton. tauto.
Qed.

End Ipv4Facts.

(** C2.  For every hostname [h], [isPrivateHostname h] returns [true]
    exactly when one of the rejection rules holds: [h] is [localhost],
    [0.0.0.0] or [::1]; or ends in [.local] or [.internal]; or is a dotted
    quad of four digit groups whose first octet is 10, 127 or 0, or whose
    first two octets are 192.168 or 169.254, or 172 followed by an octet in
    16..31; or contains a colon and its lower-case form starts with [fe80:],
    [fc] or [fd].  For every other hostname it returns [false]. *)
Theorem isPrivateHostname_iff_rejected (h : string) :
  (Filter.isPrivateHostname h = true <-> FilterSpec.rejected h) /\
  (Filter.isPrivateHostname h = false <-> ~ FilterSpec.rejected h).
Proof.
  assert (Filter.isPrivateHostname h = true <-> FilterSpec.rejected h) as Hiff.
  { unfold Filter.isPrivateHostname, FilterSpec.rejected.
    rewrite <- private_names_spec, <- !endsWith_spec, <- ipv4_branch_spec,
      <- includes_spec, <- !startsWith_spec.
    case_bool_decide as Hn; [tauto |].
    destruct (JS.endsWith h ".local"); simpl; [tauto |].
    destruct (JS.endsWith h ".internal"); simpl; [tauto |].
    match goal with |- context [match ?m with Some _ => _ | None => _ end] =>
      destruct m as [groups|] end.
    - match goal with |- context [if ?b then true else _] =>
        destruct b; [tauto |] end.
      destruct (JS.includes h ":"); [|intuition discriminate].
      destruct (JS.startsWith _ "fe80:"); simpl; [tauto |].
      destruct (JS.startsWith _ "fc"); simpl; [tauto |].
      destruct (JS.startsWith _ "fd"); simpl; [tauto |].
      intuition discriminate.
    - destruct (JS.includes h ":"); [|intuition discriminate].
      destruct (JS.startsWith _ "fe80:"); simpl; [tauto |].
      destruct (JS.startsWith _ "fc"); simpl; [tauto |].
      destruct (JS.startsWith _ "fd"); simpl; [tauto |].
      intuition discriminate. }
  split; [exact Hiff |].
  rewrite <- Hiff. destruct (Filter.isPrivateHostname h); split; congruence.
Qed.

(** C9.  Named hosts are matched case-sensitively, only the colon branch
    lower-cases: [LOCALHOST] and a name ending in [.LOCAL] pass the filter,
    their lower-case forms do not, and an upper-case IPv6 literal is still
    caught. *)
Theorem isPrivateHostname_case_sensitive :
  Filter.isPrivateHostname "LOCALHOST" = false /\
  Filter.isPrivateHostname "printer.LOCAL" = false /\
  Filter.isPrivateHostname "db.INTERNAL" = false /\
  Filter.isPrivateHostname "localhost" = true /\
  Filter.isPrivateHostname "printer.local" = true /\
  Filter.isPrivateHostname "db.internal" = true /\
  Filter.isPrivateHostname "FE80::1" = true /\
  Filter.isPrivateHostname "FC00::1" = true.
Proof. vm_compute. repeat split. Qed.

(** The filter on the addresses named by the specification. *)
Example isPrivateHostname_samples :
  Filter.isPrivateHostname "0.0.0.0" = true /\
  Filter.isPrivateHostname "::1" = true /\
  Filter.isPrivateHostname "10.1.2.3" = true /\
  Filter.isPrivateHostname "127.0.0.1" = true /\
  Filter.isPrivateHostname "192.168.1.1" = true /\
  Filter.isPrivateHostname "169.254.169.254" = true /\
  Filter.isPrivateHostname "172.16.0.1" = true /\
  Filter.isPrivateHostname "172.31.255.255" = true /\
  Filter.isPrivateHostname "172.32.0.1" = false /\
  Filter.isPrivateHostname "010.1.2.3" = true /\
  Filter.isPrivateHostname "1.2.3" = false /\
  Filter.isPrivateHostname "fd12:3456::1" = true /\
  Filter.isPrivateHostname "2001:db8::1" = false /\
  Filter.isPrivateHostname "api.example.com" = false.
Proof. vm_compute. repeat split. Qed.

(** *** The trace store *)

Section TraceFacts.
Import JS Value Traces FilterSpec TraceSpec.

Lemma enforceLimit_loop_small (l : list string) (m : gmap string AgentTrace) :
  (length l ≤ MAX_TRACES)%nat ->
  enforceLimit_loop l m = {| traces := m; order := l |}.
Proof.
  intros Hl. destruct l as [|o r]; [reflexivity |].
  cbn [enforceLimit_loop]. destruct (decide _) as [Hgt|_]; [lia | reflexivity].
Qed.

Lemma enforceLimit_loop_one (o : string) (r : list string)
    (m : gmap string AgentTrace) :
  length r = MAX_TRACES ->
  enforceLimit_loop (o :: r) m =
  {| traces := if truthy o then delete o m else m; order := r |}.
Proof.
  intros Hr. cbn [enforceLimit_loop].
  destruct (decide _) as [_|Hle]; [|simpl in Hle; lia].
  apply enforceLimit_loop_small. lia.
Qed.

Lemma truthy_nonempty (s : string) : s <> "" -> truthy s = true.
Proof. destruct s; [contradiction | reflexivity]. Qed.

Lemma tracks_empty : tracks [] emptyStore.
Proof.
  split; [reflexivity |]. split.
  - intros k. simpl. rewrite lookup_empty, elem_of_nil.
    split; [intros [? ?]; discriminate | contradiction].
  - intros k t. simpl. rewrite lookup_empty. discriminate.
Qed.

Lemma tracks_start (ids : list string) (st : TraceStore)
    (i p m s : string) (now : Z) :
  NoDup (ids ++ [i]) ->
  Forall (fun k => k <> "") ids ->
  tracks ids st ->
  tracks (ids ++ [i]) (startTrace i p m s now st).
Proof.
  intros Hnd Hne (Hord & Hkeys & Hid).
  apply NoDup_app in Hnd as (Hnd & Hfresh & _).
  assert (i ∉ ids) as Hi.
  { intros Hin. apply (Hfresh i Hin). apply list_elem_of_singleton. reflexivity. }
  assert (0 < MAX_TRACES)%nat as Hpos by (unfold MAX_TRACES; lia).
  unfold startTrace, enforceLimit, tracks, retained in *. cbn [traces order].
  rewrite length_app. cbn [length].
  destruct (decide (length ids < MAX_TRACES)%nat) as [Hlt|Hge].
  - replace (length ids - MAX_TRACES)%nat with 0%nat in Hord by lia.
    rewrite drop_0 in Hord.
    replace (length ids + 1 - MAX_TRACES)%nat with 0%nat by lia.
    rewrite drop_0, enforceLimit_loop_small
      by (rewrite Hord, length_app; simpl; lia).
    cbn [traces order]. rewrite Hord. split; [reflexivity |]. split.
    + intros k. rewrite lookup_insert_is_Some, elem_of_app,
        list_elem_of_singleton, Hkeys, Hord.
      destruct (decide (i = k)); intuition congruence.
    + intros k t [[<- <-]|[_ Hk]]%lookup_insert_Some; [reflexivity | eauto].
  - assert (length (order st) = MAX_TRACES) as Hlen
      by (rewrite Hord, length_drop; lia).
    destruct (order st) as [|o r] eqn:Eo; [discriminate |].
    assert (o ∈ ids) as Ho.
    { apply (subseteq_drop (length ids - MAX_TRACES)). rewrite <- Hord.
      apply elem_of_cons. left. reflexivity. }
    assert (NoDup (o :: r)) as [Hor Hr]%NoDup_cons.
    { rewrite Hord. eapply sublist_NoDup; [exact Hnd | apply sublist_drop]. }
    assert (drop (S (length ids - MAX_TRACES)) ids = r) as Hdrop.
    { replace (S (length ids - MAX_TRACES)) with (length ids - MAX_TRACES + 1)%nat by lia.
      rewrite <- drop_drop, <- Hord. reflexivity. }
    change ((o :: r) ++ [i]) with (o :: (r ++ [i])).
    rewrite enforceLimit_loop_one by (rewrite length_app; simpl in *; lia).
    rewrite truthy_nonempty by (eapply Forall_forall in Hne; eauto).
    cbn [traces order].
    replace (length ids + 1 - MAX_TRACES)%nat
      with (S (length ids - MAX_TRACES)) by lia.
    rewrite drop_app_le by lia. rewrite Hdrop.
    split; [reflexivity |]. split.
    + intros k. rewrite lookup_delete_is_Some, lookup_insert_is_Some,
        elem_of_app, list_elem_of_singleton, Hkeys, elem_of_cons.
      destruct (decide (i = k)) as [<-|Hik]; [|split].
      * split; [auto |]. intros _. split; [congruence | auto].
      * intros [Hok [?|[_ [?|?]]]]; [congruence | congruence | auto].
      * intros [Hk|?]; [|congruence].
        split; [congruence | auto].
    + intros k t [_ [[<- <-]|[_ Hk]]%lookup_insert_Some]%lookup_delete_Some;
        [reflexivity | eauto].
Qed.

Section Calls.
Context `{Builtins}.

Lemma tracks_append (ids : list string) (st : TraceStore)
    (traceId : string) (e : TraceEvent) :
  tracks ids st -> tracks ids (appendTraceEvent traceId e st).
Proof.
  intros (Hord & Hkeys & Hid). unfold appendTraceEvent.
  destruct (traces st !! traceId) as [t|] eqn:Et; [|repeat split; auto; apply Hkeys].
  split; [exact Hord |]. cbn [traces order]. split.
  - intros k. rewrite lookup_insert_is_Some, <- Hkeys.
    destruct (decide (traceId = k)) as [<-|]; [rewrite Et|]; intuition eauto.
  - intros k t' [[<- <-]|[_ Hk]]%lookup_insert_Some; [apply (Hid _ _ Et) | eauto].
Qed.

Lemma tracks_finish (ids : list string) (st : TraceStore)
    (traceId : string) (now : Z) :
  tracks ids st -> tracks ids (finishTrace traceId now st).
Proof.
  intros (Hord & Hkeys & Hid). unfold finishTrace.
  destruct (traces st !! traceId) as [t|] eqn:Et; [|repeat split; auto; apply Hkeys].
  split; [exact Hord |]. cbn [traces order]. split.
  - intros k. rewrite lookup_insert_is_Some, <- Hkeys.
    destruct (decide (traceId = k)) as [<-|]; [rewrite Et|]; intuition eauto.
  - intros k t' [[<- <-]|[_ Hk]]%lookup_insert_Some; [apply (Hid _ _ Et) | eauto].
Qed.

Lemma tracks_run (calls : list call) (ids : list string) (st : TraceStore) :
  NoDup (ids ++ startedIds calls) ->
  Forall (fun k => k <> "") (ids ++ startedIds calls) ->
  tracks ids st ->
  tracks (ids ++ startedIds calls) (run calls st).
Proof.
  revert ids st. induction calls as [|c calls IH]; intros ids st Hnd Hne Ht.
  - simpl. rewrite app_nil_r. exact Ht.
  - destruct c as [i p m s now|traceId e|traceId now|traceId];
      cbn [startedIds run foldl step] in *;
      try (apply IH; auto using tracks_append, tracks_finish).
    change (i :: startedIds calls) with ([i] ++ startedIds calls) in *.
    rewrite app_assoc in *. apply IH; [exact Hnd | exact Hne |].
    apply tracks_start; [| |exact Ht].
    + apply NoDup_app in Hnd. apply Hnd.
    + apply Forall_app in Hne as [[Hne _]%Forall_app _]. exact Hne.
Qed.

(** With ids that are distinct and not empty, the store follows the
    most recent [MAX_TRACES] starts. *)
Lemma tracks_from_empty (calls : list call) :
  NoDup (startedIds calls) ->
  Forall (fun k => k <> "") (startedIds calls) ->
  tracks (startedIds calls) (run calls emptyStore).
Proof. intros Hnd Hne. apply (tracks_run calls []); auto using tracks_empty. Qed.
End Calls.

Lemma tracks_evicts_oldest (ids : list string) (st : TraceStore) :
  NoDup ids -> tracks ids st -> evicts_oldest ids st.
Proof.
  intros Hnd (Hord & Hkeys & Hid) k i Hk. unfold getTrace, retained in *.
  split.
  - intros Hlt. apply eq_None_not_Some. rewrite Hkeys, Hord.
    intros [j Hj]%list_elem_of_lookup. rewrite lookup_drop in Hj.
    pose proof (NoDup_lookup _ _ _ _ Hnd Hk Hj). lia.
  - intros Hge. destruct (proj2 (Hkeys i)) as [t Ht].
    + rewrite Hord. apply list_elem_of_lookup.
      exists (k - (length ids - MAX_TRACES))%nat. rewrite lookup_drop.
      rewrite <- Hk. f_equal. lia.
    + exists t. split; [exact Ht | eauto].
Qed.

Lemma tracks_bounded_and_aligned (ids : list string) (st : TraceStore) :
  NoDup ids -> tracks ids st -> bounded_and_aligned st.
Proof.
  intros Hnd (Hord & Hkeys & _). unfold bounded_and_aligned, retained in *.
  assert (dom (traces st) = list_to_set (order st)) as Hdom.
  { apply set_eq. intros k.
    rewrite elem_of_dom, elem_of_list_to_set. apply Hkeys. }
  split; [|exact Hdom].
  rewrite <- size_dom, Hdom, size_list_to_set.
  - rewrite Hord, length_drop. lia.
  - rewrite Hord. eapply sublist_NoDup; [exact Hnd | apply sublist_drop].
Qed.

End TraceFacts.

Section TraceClaims.
Import JS Value Traces FilterSpec TraceSpec.




Lemma finishTrace_known (st : TraceStore) (i : string) (now : Z) (t : AgentTrace) :
  getTrace i st = Some t ->
  getTrace i (finishTrace i now st) = Some (setFinished now t).
Proof.
  unfold getTrace, finishTrace. intros ->. cbn [traces]. apply lookup_insert_eq.
Qed.

Lemma finishTrace_others (st : TraceStore) (i j : string) (now : Z) :
  i <> j -> getTrace j (finishTrace i now st) = getTrace j st.
Proof.
  unfold getTrace, finishTrace. intros Hne.
  destruct (traces st !! i); [|reflexivity]. cbn [traces].
  apply lookup_insert_ne. exact Hne.
Qed.

End TraceClaims.

(** C4.  For every sequence of calls whose start ids are pairwise
    distinct and, like every id that [randomUUID] gives, not the empty
    string: [getTrace] is absent for exactly the oldest excess ids, those
    started before the last [MAX_TRACES], and returns the trace of each of
    the [MAX_TRACES] most recently started ids, whatever
    [appendTraceEvent], [finishTrace] and [getTrace] calls lie between. *)
Lemma eviction_of_nonempty_ids `{Value.Builtins} (calls : list Traces.call) :
  NoDup (Traces.startedIds calls) ->
  Forall (fun k => k <> "") (Traces.startedIds calls) ->
  TraceSpec.evicts_oldest (Traces.startedIds calls)
    (Traces.run calls Traces.emptyStore).
Proof.
  intros Hnd Hne. apply tracks_evicts_oldest; [exact Hnd |].
  apply tracks_from_empty; assumption.
Qed.

(** X21.  With start ids that are pairwise distinct and not the empty string,
    the store keeps at most [MAX_TRACES] entries and the same ids in the
    map and in the order list, after every sequence of calls. *)
Lemma store_invariant_of_nonempty_ids `{Value.Builtins} (calls : list Traces.call) :
  NoDup (Traces.startedIds calls) ->
  Forall (fun k => k <> "") (Traces.startedIds calls) ->
  TraceSpec.bounded_and_aligned (Traces.run calls Traces.emptyStore).
Proof.
  intros Hnd Hne. eapply tracks_bounded_and_aligned; [exact Hnd |].
  apply tracks_from_empty; assumption.
Qed.

(** The one id for which eviction does not delete.  Twenty-six pairwise
    distinct ids are started, the first of them the empty string, which
    the handler never passes: [enforceLimit] shifts it off the order list
    but does not delete it from the map, and [getTrace] still returns its
    trace. *)
Theorem empty_id_survives_eviction :
  let ids := "" :: Traces.ids25 in
  let st := Traces.run (H := Value.hostBuiltins) (Traces.starts ids) Traces.emptyStore in
  Traces.startedIds (Traces.starts ids) = ids /\
  NoDup ids /\
  length ids = 26%nat /\
  ids !! 0%nat = Some "" /\
  Traces.getTrace "" st = Some (Traces.newTrace "" "p" "m" "s" 0) /\
  ~ TraceSpec.evicts_oldest ids st.
Proof.
  intros ids st.
  assert (Traces.getTrace "" st = Some (Traces.newTrace "" "p" "m" "s" 0)) as Hget
    by (vm_compute; reflexivity).
  split; [reflexivity |]. split.
  { apply (bool_decide_unpack _). vm_compute. exact I. }
  split; [reflexivity |]. split; [reflexivity |]. split; [exact Hget |].
  intros Hev. destruct (Hev 0%nat "" eq_refl) as [Hnone _].
  rewrite Hnone in Hget; [discriminate |]. vm_compute. lia.
Qed.

(** After the same twenty-six starts the map holds twenty-six entries,
    one more than [MAX_TRACES], and the empty id is a key of the map that
    is no longer in the order list. *)
Theorem empty_id_breaks_store_invariant :
  let ids := "" :: Traces.ids25 in
  let st := Traces.run (H := Value.hostBuiltins) (Traces.starts ids) Traces.emptyStore in
  NoDup (Traces.startedIds (Traces.starts ids)) /\
  size (Traces.traces st) = 26%nat /\
  Traces.order st = Traces.ids25 /\
  ("" ∈ dom (Traces.traces st)) /\
  ("" ∉ Traces.order st) /\
  ~ TraceSpec.bounded_and_aligned st.
Proof.
  intros ids st.
  assert (size (Traces.traces st) = 26%nat) as Hsize by (vm_compute; reflexivity).
  split.
  { apply (bool_decide_unpack _). vm_compute. exact I. }
  split; [exact Hsize |]. split; [vm_compute; reflexivity |]. split.
  { apply elem_of_dom. eexists. vm_compute. reflexivity. }
  split.
  { apply (bool_decide_unpack _). vm_compute. exact I. }
  intros [Hle _]. rewrite Hsize in Hle. unfold Traces.MAX_TRACES in Hle. lia.
Qed.


(** C6, as stated, fails: a trace finished at time 5 and finished again at
    time 9 has the finish timestamp 9. *)
Lemma finishTrace_twice_overwrites :
  let st0 := Traces.startTrace "t" "p" "m" "s" 1 Traces.emptyStore in
  let st1 := Traces.finishTrace "t" 5 st0 in
  let st2 := Traces.finishTrace "t" 9 st1 in
  Traces.finishedAt <$> Traces.getTrace "t" st1 = Some (Some 5%Z) /\
  Traces.finishedAt <$> Traces.getTrace "t" st2 = Some (Some 9%Z) /\
  ~ TraceSpec.finish_set_once.
Proof.
  intros st0 st1 st2.
  assert (Traces.finishedAt <$> Traces.getTrace "t" st1 = Some (Some 5%Z)) as H1
    by (vm_compute; reflexivity).
  assert (Traces.finishedAt <$> Traces.getTrace "t" st2 = Some (Some 9%Z)) as H2
    by (vm_compute; reflexivity).
  split; [exact H1 |]. split; [exact H2 |].
  intros Hc. specialize (Hc st0 "t" 5%Z 9%Z). fold st1 st2 in Hc.
  rewrite H1, H2 in Hc. discriminate Hc.
  eexists. vm_compute. reflexivity.
Qed.

(** C6, amended.  Every [finishTrace(id)] call on a stored trace sets the
    finish timestamp to the time of that call, whether or not it was set
    before: after two calls the timestamp is the time of the second one.
    The other fields of the trace and the traces under other ids are left
    as they were. *)
Theorem finishTrace_last_call_wins
    (st : Traces.TraceStore) (i : string) (now1 now2 : Z) (t : Traces.AgentTrace) :
  Traces.getTrace i st = Some t ->
  exists t1 t2,
    Traces.getTrace i (Traces.finishTrace i now1 st) = Some t1 /\
    Traces.finishedAt t1 = Some now1 /\
    Traces.getTrace i (Traces.finishTrace i now2 (Traces.finishTrace i now1 st)) = Some t2 /\
    Traces.finishedAt t2 = Some now2 /\
    (Traces.id t2, Traces.prompt t2, Traces.model t2, Traces.sandboxId t2,
     Traces.startedAt t2, Traces.events t2) =
    (Traces.id t, Traces.prompt t, Traces.model t, Traces.sandboxId t,
     Traces.startedAt t, Traces.events t) /\
    forall j, j <> i ->
      Traces.getTrace j (Traces.finishTrace i now2 (Traces.finishTrace i now1 st)) =
      Traces.getTrace j st.
Proof.
  intros Ht.
  exists (Traces.setFinished now1 t), (Traces.setFinished now2 (Traces.setFinished now1 t)).
  pose proof (finishTrace_known st i now1 t Ht) as H1.
  pose proof (finishTrace_known _ i now2 _ H1) as H2.
  split; [exact H1 |]. split; [reflexivity |]. split; [exact H2 |].
  split; [reflexivity |]. split; [reflexivity |].
  intros j Hj. rewrite !finishTrace_others by congruence. reflexivity.
Qed.

(** *** The fetchJson tool *)

Section FetchFacts.
Import JS Value Filter Fetch FetchSpec.

Lemma admitted_passes_guards (net : Net) (url : string) (parsed : URL) :
  admitted net url parsed ->
  fetchJson net url =
  match fetch net (href parsed) with
  | inl r => Threw (rejectionMessage r)
  | inr response =>
      if negb (ok response)
      then Threw ("Request failed with status " +:+ showZ (status response) +:+ ".")
      else
        match text response with
        | inl r => Threw (rejectionMessage r)
        | inr body =>
            if MAX_BODY <? N.of_nat (String.length body)
            then Threw "Response too large to parse safely."
            else
              match JSON_parse net body with
              | Some data =>
                  Returned (JObj [("url", JStr (href parsed));
                                  ("status", JNum (status response));
                                  ("data", data)])
              | None => Threw "Response was not valid JSON."
              end
        end
  end.
Proof.
  intros (Hp & Hs & Hh). unfold fetchJson. rewrite Hp.
  rewrite (bool_decide_eq_true_2 _ Hs). simpl. rewrite Hh. reflexivity.
Qed.

Lemma fetchJson_failure (net : Net) (url : string) (f : failure) :
  fails net url f -> fetchJson net url = Threw (message f).
Proof.
  destruct f as [| |st| |]; simpl.
  - intros (parsed & Hp & Hs & Hh). unfold fetchJson. rewrite Hp.
    rewrite (bool_decide_eq_true_2 _ Hs). simpl. rewrite Hh. reflexivity.
  - intros (parsed & Ha & [Hf|(r & Hf & Hok & Ht)]);
      rewrite (admitted_passes_guards _ _ _ Ha), Hf; [reflexivity |].
    rewrite Hok, Ht. reflexivity.
  - intros (parsed & r & Ha & Hf & Hok & <-).
    rewrite (admitted_passes_guards _ _ _ Ha), Hf, Hok. reflexivity.
  - intros (parsed & r & body & Ha & Hf & Hok & Ht & Hlen).
    rewrite (admitted_passes_guards _ _ _ Ha), Hf, Hok, Ht. simpl.
    unfold MAX_BODY. destruct (N.ltb_spec 200000 (N.of_nat (String.length body)));
      [reflexivity | lia].
  - intros (parsed & r & body & Ha & Hf & Hok & Ht & Hlen & Hj).
    rewrite (admitted_passes_guards _ _ _ Ha), Hf, Hok, Ht. simpl.
    unfold MAX_BODY. destruct (N.ltb_spec 200000 (N.of_nat (String.length body)));
      [lia |]. rewrite Hj. reflexivity.
Qed.

End FetchFacts.

(** C3, as stated, fails: the request for the metadata address is denied
    by the filter, and the tool throws; no string is returned. *)
Lemma fetchJson_denial_is_thrown :
  let net := Fetch.silentNet "169.254.169.254" in
  let url := "http://169.254.169.254/" in
  FetchSpec.fails net url FetchSpec.RequestDenied /\
  Fetch.execute net url = JS.Threw "Private or local addresses are not allowed." /\
  ~ FetchSpec.string_result (Fetch.execute net url) /\
  ~ FetchSpec.failures_are_string_results.
Proof.
  intros net url.
  assert (FetchSpec.fails net url FetchSpec.RequestDenied) as Hf.
  { eexists. split; [reflexivity |]. split; [|vm_compute; reflexivity].
    apply elem_of_cons. right. apply elem_of_cons. left. reflexivity. }
  assert (~ FetchSpec.string_result (Fetch.execute net url)) as Hn.
  { intros [s Hs]. vm_compute in Hs. discriminate Hs. }
  split; [exact Hf |]. split; [vm_compute; reflexivity |]. split; [exact Hn |].
  intros Hall. exact (Hn (Hall net url _ Hf)).
Qed.

(** C3, amended.  Every failing invocation of the fetchJson tool (denial
    by the network-safety filter, timeout, non-2xx upstream status,
    response body over 200,000 characters, body that does not parse as
    JSON) ends in a thrown error that carries the message of the failure;
    the tool returns no value. *)
Theorem fetchJson_failures_are_thrown
    (net : Fetch.Net) (url : string) (f : FetchSpec.failure) :
  FetchSpec.fails net url f ->
  Fetch.execute net url = JS.Threw (FetchSpec.message f) /\
  forall v, Fetch.execute net url <> JS.Returned v.
Proof.
  intros Hf. unfold Fetch.execute. rewrite (fetchJson_failure net url f Hf).
  split; [reflexivity | discriminate].
Qed.

(** *** The runInSandbox tool *)

Section ToolFacts.
Import JS Tool ToolSpec.

Lemma or_else_first (a b : string) : or_else a b = first_nonempty [a] b.
Proof. destruct a; reflexivity. Qed.

Lemma or_else_first2 (a b c : string) :
  or_else (or_else a b) c = first_nonempty [a; b] c.
Proof. destruct a; [destruct b|]; reflexivity. Qed.

Lemma runCode_expected (runCommand : Backend) (code : string)
    (result : CommandFinished) :
  runCommand "node" ["-e"; code] = Returned result ->
  runCode runCommand code = Returned (expected (ScriptRan result)).
Proof.
  intros Hr. unfold runCode. rewrite Hr. simpl.
  destruct (decide (exitCode result <> 0%Z)) as [Hne|He];
    destruct (decide (exitCode result = 0%Z)) as [He'|Hne'];
    try congruence; try contradiction.
  - rewrite or_else_first2. reflexivity.
  - destruct (trim (stdout result)); [|reflexivity].
    destruct (trim (stderr result)); reflexivity.
Qed.

End ToolFacts.

(** C7.  Given the results of the backend commands: when the script runs
    and exits with code 0 and non-empty trimmed stdout, the tool returns
    the trimmed stdout; on a non-zero exit it returns an execution-error
    string built from trimmed stderr, else trimmed stdout, else a generic
    message; on exit code 0 with empty stdout it returns trimmed stderr,
    else [No output produced.]; and when a requested install exits
    non-zero it returns an install-failure string, without throwing. *)
Theorem runInSandbox_returns_expected
    (runCommand : Tool.Backend) (code : string) (packages : option (list string))
    (sit : ToolSpec.situation) :
  ToolSpec.met runCommand code packages sit ->
  Tool.execute runCommand code packages = JS.Returned (ToolSpec.expected sit).
Proof.
  destruct sit as [result|install]; simpl.
  - intros [Hrun Hr]. pose proof (runCode_expected runCommand code result Hr) as Hc.
    destruct Hrun as [->|[->|(pkgs & init & install & -> & Hi & Hn & He)]];
      [exact Hc | exact Hc |].
    destruct pkgs as [|p ps]; [exact Hc |].
    unfold Tool.execute. rewrite Hi. simpl. rewrite Hn. simpl.
    destruct (decide (Tool.exitCode install <> 0%Z)); [congruence | exact Hc].
  - intros (pkgs & init & -> & Hne & Hi & Hn & He).
    destruct pkgs as [|p ps]; [congruence |].
    unfold Tool.execute. rewrite Hi. simpl. rewrite Hn. simpl.
    destruct (decide (Tool.exitCode install <> 0%Z)); [|contradiction].
    rewrite or_else_first. reflexivity.
Qed.

(** *** The POST handler *)

Section RouteFacts.
Import JS Value Traces Route RouteSpec.
Context `{Builtins}.

Lemma requestSchema_valid (json : option jsvalue) (prompt : string) :
  requestSchema (default JNull json) = Some prompt -> valid_body json.
Proof.
  unfold requestSchema, valid_body.
  destruct json as [[| | | | | |?|fields]|]; simpl; try discriminate.
  destruct (property "prompt" fields) as [[| | | | |s| |]|] eqn:Hp; try discriminate.
  destruct (decide _) as [Hlo|]; [|discriminate].
  destruct (decide _) as [Hhi|]; [|discriminate].
  intros _. exists fields, s. auto.
Qed.

Lemma valid_requestSchema (json : option jsvalue) :
  valid_body json -> exists prompt, requestSchema (default JNull json) = Some prompt.
Proof.
  intros (fields & s & -> & Hp & Hlo & Hhi). simpl. rewrite Hp.
  destruct (decide _) as [_|]; [|contradiction].
  destruct (decide _) as [_|]; [|contradiction].
  eexists. reflexivity.
Qed.

(** **** Effects only accumulate, and only the handler creates *)

Lemma grows_refl (s : State) : grows s s.
Proof. exists []. rewrite app_nil_r. split; [reflexivity | constructor]. Qed.

Lemma grows_trans (s1 s2 s3 : State) : grows s1 s2 -> grows s2 s3 -> grows s1 s3.
Proof.
  intros (e1 & H1 & F1) (e2 & H2 & F2). exists (e1 ++ e2).
  rewrite H2, H1, app_assoc. split; [reflexivity | apply Forall_app; auto].
Qed.

Lemma grows_emit (e : effect) (s : State) : notCreated e -> grows s (emit e s).
Proof. intros He. exists [e]. split; [reflexivity | repeat constructor; exact He]. Qed.

Lemma grows_same_effects (s s' : State) : effects s' = effects s -> grows s s'.
Proof.
  intros He. exists []. rewrite app_nil_r. split; [exact He | constructor].
Qed.

Lemma grows_stopSandbox (w : World) (sb : string) (s : State) :
  grows s (stopSandbox w sb s).
Proof.
  unfold stopSandbox. destruct (stopRejects w).
  - eapply grows_trans; apply grows_emit; exact I.
  - apply grows_emit. exact I.
Qed.

Lemma grows_cancelIfDue (w : World) (t sb : string) (k : nat) (s : State) :
  grows s (cancelIfDue w t sb k s).
Proof.
  unfold cancelIfDue, cancel. destruct (decide _); [|apply grows_refl].
  eapply grows_trans; [|apply grows_stopSandbox].
  apply grows_same_effects. reflexivity.
Qed.

Lemma grows_handlePart (t : string) (part : StreamPart) (now : Z) (s s' : State) :
  handlePart t part now s = inr s' -> grows s s'.
Proof.
  destruct part; simpl;
    try (intros [= <-]; apply grows_same_effects; reflexivity).
  destruct (closed s); [discriminate |]. intros [= <-]. apply grows_emit. exact I.
Qed.

Lemma grows_pump (w : World) (t sb : string) (fin : StreamEnd)
    (parts : list (StreamPart * Z)) (k : nat) (s : State) :
  grows s (pump w t sb fin k parts s).1.
Proof.
  revert k s. induction parts as [|[part now] rest IH]; intros k s; simpl.
  - destruct fin; apply grows_cancelIfDue.
  - destruct (handlePart t part now _) as [m|s'] eqn:Hh; simpl.
    + apply grows_cancelIfDue.
    + eapply grows_trans; [apply grows_cancelIfDue |].
      eapply grows_trans; [exact (grows_handlePart _ _ _ _ _ Hh) | apply IH].
Qed.

Lemma grows_start (w : World) (t sb : string) (parts : list (StreamPart * Z))
    (fin : StreamEnd) (s : State) :
  grows s (start w t sb parts fin s).
Proof.
  unfold start. pose proof (grows_pump w t sb fin parts 0 s) as Hp.
  destruct (pump w t sb fin 0 parts s) as [s1 thrown]. simpl in Hp.
  match goal with |- grows s (if closed ?x then _ else _) => set (s2 := x) end.
  assert (grows s s2) as H2.
  { eapply grows_trans; [exact Hp |]. subst s2.
    apply grows_same_effects. destruct thrown; reflexivity. }
  destruct (closed s2); [exact H2 |].
  eapply grows_trans; [exact H2 |].
  eapply grows_trans; [|apply grows_stopSandbox].
  exists [StreamClosed]. split; [reflexivity | repeat constructor].
Qed.

Lemma grows_stopped (sb : string) (s s' : State) :
  grows s s' -> sandbox_stopped sb s -> sandbox_stopped sb s'.
Proof.
  intros (ext & He & _) Hs. unfold sandbox_stopped in *. rewrite He.
  apply elem_of_app. left. exact Hs.
Qed.

(** **** A closed stream has had its sandbox stopped *)

Lemma stopSandbox_stops (w : World) (sb : string) (s : State) :
  sandbox_stopped sb (stopSandbox w sb s).
Proof.
  unfold stopSandbox.
  assert (sandbox_stopped sb (emit (SandboxStopped sb) s)) as Hs.
  { unfold sandbox_stopped, emit. simpl. apply elem_of_app. right.
    apply list_elem_of_singleton. reflexivity. }
  destruct (stopRejects w); [|exact Hs].
  eapply grows_stopped; [apply grows_emit; exact I | exact Hs].
Qed.

Lemma settled_cancelIfDue (w : World) (t sb : string) (k : nat) (s : State) :
  settled sb s -> settled sb (cancelIfDue w t sb k s).
Proof.
  unfold cancelIfDue. destruct (decide _); [|auto].
  intros _ _. apply stopSandbox_stops.
Qed.

Lemma handlePart_closed (t : string) (part : StreamPart) (now : Z) (s s' : State) :
  handlePart t part now s = inr s' -> closed s' = closed s.
Proof.
  destruct part; simpl; try (intros [= <-]; reflexivity).
  destruct (closed s) eqn:Hc; [discriminate |]. intros [= <-]. exact Hc.
Qed.

Lemma settled_pump (w : World) (t sb : string) (fin : StreamEnd)
    (parts : list (StreamPart * Z)) (k : nat) (s : State) :
  settled sb s -> settled sb (pump w t sb fin k parts s).1.
Proof.
  revert k s. induction parts as [|[part now] rest IH]; intros k s Hs; simpl.
  - destruct fin; apply settled_cancelIfDue; exact Hs.
  - destruct (handlePart t part now _) as [m|s'] eqn:Hh; simpl.
    + apply settled_cancelIfDue. exact Hs.
    + apply IH. intros Hc. rewrite (handlePart_closed _ _ _ _ _ Hh) in Hc.
      eapply grows_stopped; [exact (grows_handlePart _ _ _ _ _ Hh) |].
      apply (settled_cancelIfDue w t sb k s Hs Hc).
Qed.

Lemma start_stops (w : World) (t sb : string) (parts : list (StreamPart * Z))
    (fin : StreamEnd) (s : State) :
  settled sb s -> sandbox_stopped sb (start w t sb parts fin s).
Proof.
  intros Hs. unfold start. pose proof (settled_pump w t sb fin parts 0 s Hs) as Hp.
  destruct (pump w t sb fin 0 parts s) as [s1 thrown]. simpl in Hp.
  match goal with |- sandbox_stopped sb (if closed ?x then _ else _) => set (s2 := x) end.
  assert (closed s2 = closed s1 /\ effects s2 = effects s1) as [Hc He]
    by (subst s2; destruct thrown; split; reflexivity).
  destruct (closed s2) eqn:Hc2.
  - unfold sandbox_stopped. rewrite He. apply Hp. congruence.
  - apply stopSandbox_stops.
Qed.

Lemma failed_effects (w : World) (t : string) (sandbox : option string)
    (message : string) (s : State) :
  grows s (failed w t sandbox message s).2 /\
  forall sb, sandbox = Some sb -> sandbox_stopped sb (failed w t sandbox message s).2.
Proof.
  unfold failed. simpl. split.
  - eapply grows_trans; [apply (grows_emit (ErrorLogged message)); exact I |].
    eapply grows_trans;
      [apply (grows_same_effects _ (onStore (finishTrace t (atFinish (clock w)))
                                      (emit (ErrorLogged message) s))); reflexivity |].
    destruct sandbox; [apply grows_stopSandbox | apply grows_refl].
  - intros sb ->. apply stopSandbox_stops.
Qed.

Lemma created_in_grown (sb sandboxId : string) (s s' : State) :
  effects s = [SandboxCreated sandboxId] -> grows s s' ->
  sandbox_created sb s' -> sb = sandboxId.
Proof.
  intros He (ext & Hg & Hext). unfold sandbox_created. rewrite Hg, He.
  intros [Hin|Hin]%elem_of_app.
  - apply list_elem_of_singleton in Hin. congruence.
  - eapply Forall_forall in Hext; [|exact Hin]. contradiction.
Qed.

Lemma nothing_created_in_grown (sb : string) (s s' : State) :
  effects s = [] -> grows s s' -> ~ sandbox_created sb s'.
Proof.
  intros He (ext & Hg & Hext). unfold sandbox_created. rewrite Hg, He. simpl.
  intros Hin. eapply Forall_forall in Hext; [|exact Hin]. contradiction.
Qed.

End RouteFacts.

(** C1.  In every execution of POST in which a sandbox was created, the
    sandbox's [stop()] is invoked, whatever the exit path: the event
    stream completes, the iteration throws after streaming began, an error
    is thrown before streaming began, or the caller cancels the response
    stream. *)
Theorem POST_stops_created_sandbox `{Value.Builtins}
    (w : Route.World) (st : Traces.TraceStore) (sandboxId : string) :
  RouteSpec.sandbox_created sandboxId (Route.POST w st).2 ->
  RouteSpec.sandbox_stopped sandboxId (Route.POST w st).2.
Proof.
  unfold Route.POST.
  destruct (Route.requestSchema _) as [prompt|];
    [|simpl; intros Hin; apply elem_of_nil in Hin; contradiction].
  destruct (negb _); [simpl; intros Hin; apply elem_of_nil in Hin; contradiction |].
  destruct (Route.created w) as [[sb|]|message].
  - set (s1 := Route.onStore _ _).
    assert (Route.effects s1 = [Route.SandboxCreated sb]) as He by reflexivity.
    assert (RouteSpec.settled sb s1) as Hs by (intros Hc; discriminate Hc).
    destruct (Route.agentStream w) as [[parts fin]|message].
    + cbn [snd]. intros Hc.
      rewrite (created_in_grown _ _ _ _ He (grows_start w _ sb parts fin s1) Hc).
      apply start_stops. exact Hs.
    + destruct (failed_effects w (Route.uuid w) (Some sb) message s1) as [Hg Hstop].
      intros Hc. rewrite (created_in_grown _ _ _ _ He Hg Hc). apply Hstop. reflexivity.
  - intros Hc. exfalso. revert Hc.
    apply nothing_created_in_grown with (s := {| Route.store := st; Route.closed := false;
                                                  Route.effects := [] |});
      [reflexivity | apply failed_effects].
  - intros Hc. exfalso. revert Hc.
    apply nothing_created_in_grown with (s := {| Route.store := st; Route.closed := false;
                                                  Route.effects := [] |});
      [reflexivity | apply failed_effects].
Qed.

(** C8.  A request whose body is not a JSON object with a prompt that,
    trimmed, has 1 to 2000 characters gets status 400 with an error
    object, with no sandbox created and no trace started; a request with a
    valid prompt and no gateway credential gets status 500 with an error
    object, before any sandbox is created. *)
Theorem POST_rejects_before_allocation `{Value.Builtins}
    (w : Route.World) (st : Traces.TraceStore) :
  (~ RouteSpec.valid_body (Route.json w) ->
   Route.POST w st =
   (Route.JsonError 400 "Invalid request. Expected { prompt: string }.",
    RouteSpec.untouched st)) /\
  (RouteSpec.valid_body (Route.json w) -> Route.apiKey w = None ->
   Route.POST w st =
   (Route.JsonError 500 "Missing AI_GATEWAY_API_KEY. Set it in your env first.",
    RouteSpec.untouched st)).
Proof.
  unfold Route.POST. split.
  - intros Hbad.
    destruct (Route.requestSchema _) as [prompt|] eqn:Hp; [|reflexivity].
    exfalso. apply Hbad. exact (requestSchema_valid _ _ Hp).
  - intros [prompt ->]%valid_requestSchema ->. reflexivity.
Qed.

(** ** The theorems at concrete inputs *)

(** The four exit paths of C1, run: the stream completes, the iteration
    throws, [agent.stream] throws before streaming, the caller cancels. *)
Lemma POST_stops_created_sandbox_witness :
  let run w := (Route.POST (H := Value.hostBuiltins) w Traces.emptyStore).2 in
  (RouteSpec.sandbox_created "sbx-1" (run Route.completes) /\
   RouteSpec.sandbox_stopped "sbx-1" (run Route.completes)) /\
  (RouteSpec.sandbox_created "sbx-1" (run Route.breaks) /\
   RouteSpec.sandbox_stopped "sbx-1" (run Route.breaks)) /\
  (RouteSpec.sandbox_created "sbx-1" (run Route.failsEarly) /\
   RouteSpec.sandbox_stopped "sbx-1" (run Route.failsEarly)) /\
  (RouteSpec.sandbox_created "sbx-1" (run Route.cancelled) /\
   RouteSpec.sandbox_stopped "sbx-1" (run Route.cancelled)).
Proof.
  intros run.
  assert (forall w, Route.effects (run w) !! 0%nat = Some (Route.SandboxCreated "sbx-1") ->
                    RouteSpec.sandbox_created "sbx-1" (run w)) as Hc.
  { intros w Hw. exact (list_elem_of_lookup_2 _ _ _ Hw). }
  repeat split.
  - apply Hc. vm_compute. reflexivity.
  - apply (POST_stops_created_sandbox (H := Value.hostBuiltins)
             Route.completes Traces.emptyStore "sbx-1").
    apply Hc. vm_compute. reflexivity.
  - apply Hc. vm_compute. reflexivity.
  - apply (POST_stops_created_sandbox (H := Value.hostBuiltins)
             Route.breaks Traces.emptyStore "sbx-1").
    apply Hc. vm_compute. reflexivity.
  - apply Hc. vm_compute. reflexivity.
  - apply (POST_stops_created_sandbox (H := Value.hostBuiltins)
             Route.failsEarly Traces.emptyStore "sbx-1").
    apply Hc. vm_compute. reflexivity.
  - apply Hc. vm_compute. reflexivity.
  - apply (POST_stops_created_sandbox (H := Value.hostBuiltins)
             Route.cancelled Traces.emptyStore "sbx-1").
    apply Hc. vm_compute. reflexivity.
Defined.

(** C3, amended, on a denied request and on an upstream status 503. *)
Lemma fetchJson_failures_are_thrown_witness :
  let denied := Fetch.silentNet "169.254.169.254" in
  let down := Fetch.cannedNet "api.example.com" 503 "null" in
  (FetchSpec.fails denied "http://169.254.169.254/" FetchSpec.RequestDenied /\
   Fetch.execute denied "http://169.254.169.254/" =
   JS.Threw "Private or local addresses are not allowed.") /\
  (FetchSpec.fails down "https://api.example.com/" (FetchSpec.UpstreamError 503) /\
   Fetch.execute down "https://api.example.com/" =
   JS.Threw "Request failed with status 503.").
Proof.
  intros denied down.
  assert (forall host : string, "https:" ∈ ["http:"; "https:"]) as Hs.
  { intros _. apply elem_of_cons. right. apply elem_of_cons. left. reflexivity. }
  assert (FetchSpec.fails denied "http://169.254.169.254/" FetchSpec.RequestDenied) as Hd.
  { eexists. split; [reflexivity |]. split; [exact (Hs "")|]. vm_compute. reflexivity. }
  assert (FetchSpec.fails down "https://api.example.com/" (FetchSpec.UpstreamError 503)) as Hu.
  { eexists. eexists. split; [|split; [reflexivity |split; reflexivity]].
    split; [reflexivity |]. split; [exact (Hs "")|]. vm_compute. reflexivity. }
  split.
  - split; [exact Hd |].
    exact (proj1 (fetchJson_failures_are_thrown denied _ _ Hd)).
  - split; [exact Hu |].
    exact (proj1 (fetchJson_failures_are_thrown down _ _ Hu)).
Defined.


(** C6, amended, on a trace finished at 5 and again at 9. *)
Lemma finishTrace_last_call_wins_witness :
  let st := Traces.startTrace "t" "p" "m" "s" 1 Traces.emptyStore in
  let trace := Traces.newTrace "t" "p" "m" "s" 1 in
  Traces.getTrace "t" st = Some trace /\
  exists t1 t2,
    Traces.getTrace "t" (Traces.finishTrace "t" 5 st) = Some t1 /\
    Traces.finishedAt t1 = Some 5%Z /\
    Traces.getTrace "t" (Traces.finishTrace "t" 9 (Traces.finishTrace "t" 5 st)) = Some t2 /\
    Traces.finishedAt t2 = Some 9%Z.
Proof.
  intros st trace.
  assert (Traces.getTrace "t" st = Some trace) as Ht by (vm_compute; reflexivity).
  split; [exact Ht |].
  destruct (finishTrace_last_call_wins st "t" 5 9 trace Ht)
    as (t1 & t2 & H1 & F1 & H2 & F2 & _).
  exists t1, t2. repeat split; assumption.
Defined.

(** C7 on a script that prints 1936 and on an install that fails. *)
Lemma runInSandbox_returns_expected_witness :
  let npmFails := {| Tool.exitCode := 1; Tool.stdout := ""; Tool.stderr := " E404 " |} in
  let prints := {| Tool.exitCode := 0; Tool.stdout := "1936 "; Tool.stderr := "" |} in
  let backend := Tool.fixedBackend npmFails prints in
  (ToolSpec.met backend "console.log(44*44)" None (ToolSpec.ScriptRan prints) /\
   Tool.execute backend "console.log(44*44)" None = JS.Returned "1936") /\
  (ToolSpec.met backend "x" (Some ["left-pad"]) (ToolSpec.InstallFailed npmFails) /\
   Tool.execute backend "x" (Some ["left-pad"]) =
   JS.Returned "Package install failed: E404").
Proof.
  intros npmFails prints backend.
  assert (ToolSpec.met backend "console.log(44*44)" None (ToolSpec.ScriptRan prints)) as Hs.
  { split; [left; reflexivity | reflexivity]. }
  assert (ToolSpec.met backend "x" (Some ["left-pad"]) (ToolSpec.InstallFailed npmFails)) as Hi.
  { exists ["left-pad"], npmFails.
    split; [reflexivity |]. split; [discriminate |].
    split; [reflexivity |]. split; [reflexivity |]. simpl. lia. }
  split.
  - split; [exact Hs |].
    exact (runInSandbox_returns_expected backend _ None _ Hs).
  - split; [exact Hi |].
    exact (runInSandbox_returns_expected backend _ (Some ["left-pad"]) _ Hi).
Defined.

(** C8 on a body whose prompt is blank and on a valid body without the
    credential. *)
Lemma POST_rejects_before_allocation_witness :
  (~ RouteSpec.valid_body (Route.json Route.badBody) /\
   Route.POST (H := Value.hostBuiltins) Route.badBody Traces.emptyStore =
   (Route.JsonError 400 "Invalid request. Expected { prompt: string }.",
    RouteSpec.untouched Traces.emptyStore)) /\
  (RouteSpec.valid_body (Route.json Route.noKey) /\
   Route.apiKey Route.noKey = None /\
   Route.POST (H := Value.hostBuiltins) Route.noKey Traces.emptyStore =
   (Route.JsonError 500 "Missing AI_GATEWAY_API_KEY. Set it in your env first.",
    RouteSpec.untouched Traces.emptyStore)).
Proof.
  assert (~ RouteSpec.valid_body (Route.json Route.badBody)) as Hbad.
  { intros (fields & s & Hj & Hp & Hlen & _).
    injection Hj as <-. injection Hp as <-. vm_compute in Hlen. lia. }
  assert (RouteSpec.valid_body (Route.json Route.noKey)) as Hgood.
  { eexists. eexists. split; [reflexivity |]. split; [reflexivity |].
    vm_compute. lia. }
  split.
  - split; [exact Hbad |].
    exact (proj1 (POST_rejects_before_allocation (H := Value.hostBuiltins)
                    Route.badBody Traces.emptyStore) Hbad).
  - split; [exact Hgood |]. split; [reflexivity |].
    exact (proj2 (POST_rejects_before_allocation (H := Value.hostBuiltins)
                    Route.noKey Traces.emptyStore) Hgood eq_refl).
Defined.

(** The handler itself finishes a trace twice: when the caller cancels,
    the [cancel] callback sets the finish timestamp, and the [finally]
    block of [start] sets it again. *)
Example POST_cancel_finishes_twice :
  let s := (Route.POST (H := Value.hostBuiltins) Route.cancelled Traces.emptyStore).2 in
  Route.atCancel (Route.clock Route.cancelled) = 250%Z /\
  Traces.finishedAt <$> Traces.getTrace "trace-1" (Route.store s) = Some (Some 300%Z).
Proof. vm_compute. split; reflexivity. Qed.

(** * Further properties of the code *)

(** ** The trace store on arbitrary stores and call sequences *)

Section StoreFacts.
Import JS Value Traces TraceSpec TraceProps.

Lemma truthy_iff (s : string) : truthy s = true <-> s <> "".
Proof. destruct s; simpl; split; congruence. Qed.

Lemma enforceLimit_loop_order (l : list string) (m : gmap string AgentTrace) :
  order (enforceLimit_loop l m) = drop (length l - MAX_TRACES) l.
Proof.
  revert m. induction l as [|o r IH]; intros m; [reflexivity |].
  cbn [enforceLimit_loop]. destruct (decide _) as [Hgt|Hle].
  - rewrite IH. cbn [length] in *.
    replace (S (length r) - MAX_TRACES)%nat with (S (length r - MAX_TRACES)) by lia.
    reflexivity.
  - cbn [order length] in *.
    replace (S (length r) - MAX_TRACES)%nat with 0%nat by lia. reflexivity.
Qed.

Lemma enforceLimit_loop_lookup (l : list string) (m : gmap string AgentTrace)
    (k : string) :
  traces (enforceLimit_loop l m) !! k =
  if decide (evicted l k) then None else m !! k.
Proof.
  unfold evicted, shifted. revert m. induction l as [|o r IH]; intros m.
  - simpl. destruct (decide _) as [[_ Hin]|_]; [|reflexivity].
    apply elem_of_nil in Hin. contradiction.
  - cbn [enforceLimit_loop]. destruct (decide (MAX_TRACES < _)%nat) as [Hgt|Hle].
    + rewrite IH. cbn [length] in *.
      replace (S (length r) - MAX_TRACES)%nat with (S (length r - MAX_TRACES)) by lia.
      cbn [take]. set (pre := take (length r - MAX_TRACES) r).
      destruct (decide (k <> "" /\ k ∈ pre)) as [[Hk Hin]|Hno].
      * destruct (decide (k <> "" /\ k ∈ o :: pre)) as [_|Hn]; [reflexivity |].
        exfalso. apply Hn. split; [exact Hk |]. apply elem_of_cons. auto.
      * destruct (decide (k <> "" /\ k ∈ o :: pre)) as [[Hk Hin]|Hno'].
        -- apply elem_of_cons in Hin as [->|Hin]; [|exfalso; auto].
           rewrite (proj2 (truthy_iff o) Hk). apply lookup_delete_eq.
        -- destruct (truthy o) eqn:Ho; [|reflexivity].
           apply lookup_delete_ne. intros ->. apply Hno'.
           split; [apply truthy_iff; exact Ho | apply elem_of_cons; auto].
    + cbn [traces length] in *.
      replace (S (length r) - MAX_TRACES)%nat with 0%nat by lia.
      rewrite take_0. destruct (decide (k <> "" /\ k ∈ [])) as [[_ Hin]|_];
        [|reflexivity].
      apply elem_of_nil in Hin. contradiction.
Qed.

Lemma size_list_to_set_le (l : list string) :
  (size (list_to_set l : gset string) ≤ length l)%nat.
Proof.
  induction l as [|x l IH].
  - rewrite list_to_set_nil, size_empty. simpl. lia.
  - rewrite list_to_set_cons, size_union_alt, size_singleton. cbn [length].
    assert (list_to_set l ∖ {[x]} ⊆ (list_to_set l : gset string)) as Hsub
      by (intros y [Hy _]%elem_of_difference; exact Hy).
    apply subseteq_size in Hsub. lia.
Qed.

End StoreFacts.

(** X1.  [enforceLimit], on every store: the order list keeps its last
    [MAX_TRACES] ids, and a key of the map is deleted exactly when it was
    shifted off the list and is not the empty string; every other entry is
    as before. *)
Theorem enforceLimit_keeps_latest (st : Traces.TraceStore) :
  Traces.order (Traces.enforceLimit st) =
  drop (length (Traces.order st) - Traces.MAX_TRACES) (Traces.order st) /\
  (length (Traces.order (Traces.enforceLimit st)) ≤ Traces.MAX_TRACES)%nat /\
  forall k,
    Traces.getTrace k (Traces.enforceLimit st) =
    if decide (TraceProps.evicted (Traces.order st) k) then None
    else Traces.getTrace k st.
Proof.
  unfold Traces.enforceLimit, Traces.getTrace.
  rewrite enforceLimit_loop_order. split; [reflexivity |]. split.
  - rewrite length_drop. lia.
  - intros k. apply enforceLimit_loop_lookup.
Qed.

Section StoreSteps.
Import JS Value Traces TraceSpec TraceProps.

Lemma continues_refl (t : AgentTrace) : continues t t.
Proof. split; [reflexivity |]. split; [exists []; symmetry; apply app_nil_r | auto]. Qed.

Lemma continues_trans (t1 t2 t3 : AgentTrace) :
  continues t1 t2 -> continues t2 t3 -> continues t1 t3.
Proof.
  intros (H1 & [k1 E1] & F1) (H2 & [k2 E2] & F2). split; [congruence |]. split.
  - exists (k1 ++ k2). rewrite E2, E1, app_assoc. reflexivity.
  - auto.
Qed.

Lemma continues_pushEvent (e : TraceEvent) (t : AgentTrace) :
  continues t (pushEvent e t).
Proof. split; [reflexivity |]. split; [exists [e]; reflexivity | auto]. Qed.

Lemma continues_setFinished (now : Z) (t : AgentTrace) :
  continues t (setFinished now t).
Proof.
  split; [reflexivity |]. split; [exists []; symmetry; apply app_nil_r |].
  intros _. eexists. reflexivity.
Qed.

Lemma startTrace_lookup (i p m s : string) (now : Z) (st : TraceStore) (k : string) :
  getTrace k (startTrace i p m s now st) =
  if decide (evicted (order st ++ [i]) k) then None
  else if decide (i = k) then Some (newTrace i p m s now)
  else getTrace k st.
Proof.
  unfold startTrace, enforceLimit, getTrace. cbn [traces order].
  rewrite enforceLimit_loop_lookup. destruct (decide _); [reflexivity |].
  rewrite lookup_insert. reflexivity.
Qed.

Lemma startTrace_order (i p m s : string) (now : Z) (st : TraceStore) :
  order (startTrace i p m s now st) =
  drop (length (order st ++ [i]) - MAX_TRACES) (order st ++ [i]).
Proof. unfold startTrace, enforceLimit. cbn [traces order]. apply enforceLimit_loop_order. Qed.

Lemma shifted_of_push (l : list string) (i : string) :
  shifted (l ++ [i]) ⊆ l.
Proof.
  unfold shifted. rewrite length_app. cbn [length].
  rewrite take_app_le by (unfold MAX_TRACES; lia). apply subseteq_take.
Qed.

Context `{Builtins}.

Lemma appendTraceEvent_lookup (i : string) (e : TraceEvent) (st : TraceStore)
    (k : string) :
  getTrace k (appendTraceEvent i e st) =
  if decide (i = k) then pushEvent (storedEvent e) <$> getTrace k st
  else getTrace k st.
Proof.
  unfold appendTraceEvent, getTrace.
  destruct (traces st !! i) as [t|] eqn:Et; cbn [traces].
  - rewrite lookup_insert. destruct (decide (i = k)) as [<-|]; [|reflexivity].
    rewrite Et. reflexivity.
  - destruct (decide (i = k)) as [<-|]; [|reflexivity]. rewrite Et. reflexivity.
Qed.

Lemma finishTrace_lookup (i : string) (now : Z) (st : TraceStore) (k : string) :
  getTrace k (finishTrace i now st) =
  if decide (i = k) then setFinished now <$> getTrace k st else getTrace k st.
Proof.
  unfold finishTrace, getTrace.
  destruct (traces st !! i) as [t|] eqn:Et; cbn [traces].
  - rewrite lookup_insert. destruct (decide (i = k)) as [<-|]; [|reflexivity].
    rewrite Et. reflexivity.
  - destruct (decide (i = k)) as [<-|]; [|reflexivity]. rewrite Et. reflexivity.
Qed.

Lemma appendTraceEvent_order (i : string) (e : TraceEvent) (st : TraceStore) :
  order (appendTraceEvent i e st) = order st.
Proof. unfold appendTraceEvent. destruct (traces st !! i); reflexivity. Qed.

Lemma finishTrace_order (i : string) (now : Z) (st : TraceStore) :
  order (finishTrace i now st) = order st.
Proof. unfold finishTrace. destruct (traces st !! i); reflexivity. Qed.

(** One call that does not start [i] continues the trace of [i], or
    removes it. *)
Lemma step_continues (c : call) (st : TraceStore) (i : string) (t' : AgentTrace) :
  i ∉ startedIds [c] ->
  getTrace i (step st c) = Some t' ->
  exists t, getTrace i st = Some t /\ continues t t'.
Proof.
  intros Hi Ht'. destruct c as [j p m s now|j e|j now|j]; cbn [step] in Ht'.
  - rewrite startTrace_lookup in Ht'. destruct (decide _); [discriminate |].
    destruct (decide (j = i)) as [->|_].
    + exfalso. apply Hi. simpl. apply list_elem_of_singleton. reflexivity.
    + eauto using continues_refl.
  - rewrite appendTraceEvent_lookup in Ht'. destruct (decide (j = i)) as [_|_].
    + destruct (getTrace i st) as [t|]; [|discriminate]. injection Ht' as <-.
      eauto using continues_pushEvent.
    + eauto using continues_refl.
  - rewrite finishTrace_lookup in Ht'. destruct (decide (j = i)) as [_|_].
    + destruct (getTrace i st) as [t|]; [|discriminate]. injection Ht' as <-.
      eauto using continues_setFinished.
    + eauto using continues_refl.
  - eauto using continues_refl.
Qed.

Lemma startedIds_app (cs ds : list call) :
  startedIds (cs ++ ds) = startedIds cs ++ startedIds ds.
Proof.
  induction cs as [|[] cs IH]; simpl; rewrite ?IH; reflexivity.
Qed.

Lemma run_continues (calls : list call) (st : TraceStore) (i : string)
    (t' : AgentTrace) :
  i ∉ startedIds calls ->
  getTrace i (run calls st) = Some t' ->
  exists t, getTrace i st = Some t /\ continues t t'.
Proof.
  revert t'. induction calls as [|c calls IH] using rev_ind; intros t' Hi Ht'.
  - eauto using continues_refl.
  - rewrite startedIds_app in Hi. apply not_elem_of_app in Hi as [Hcs Hc].
    unfold run in Ht'. rewrite foldl_app in Ht'. cbn [foldl] in Ht'.
    destruct (step_continues c _ i t' Hc Ht') as (t1 & Ht1 & C1).
    destruct (IH t1 Hcs Ht1) as (t & Ht & C). eauto using continues_trans.
Qed.

Lemma bounded_step (c : call) (st : TraceStore) : bounded st -> bounded (step st c).
Proof.
  intros [Hlen Hkeys]. destruct c as [j p m s now|j e|j now|j]; cbn [step].
  - split; [rewrite startTrace_order, length_drop; lia |].
    intros k. rewrite startTrace_lookup, startTrace_order.
    destruct (decide (evicted _ k)) as [|Hne]; [intros [? ?]; discriminate |].
    intros Hk. destruct (decide (k = "")) as [|Hk0]; [auto |]. right.
    assert (k ∈ order st ++ [j]) as Hin.
    { apply elem_of_app. destruct (decide (j = k)) as [->|];
        [right; apply list_elem_of_singleton; reflexivity |].
      left. destruct (Hkeys k Hk); [contradiction | assumption]. }
    rewrite <- (take_drop (length (order st ++ [j]) - MAX_TRACES)) in Hin.
    apply elem_of_app in Hin as [Hin|Hin]; [|exact Hin].
    exfalso. apply Hne. split; assumption.
  - split; [rewrite appendTraceEvent_order; exact Hlen |].
    intros k. rewrite appendTraceEvent_lookup, appendTraceEvent_order.
    destruct (decide (j = k)); [|apply Hkeys].
    intros [t Ht]. apply Hkeys. destruct (getTrace k st); [eauto | discriminate].
  - split; [rewrite finishTrace_order; exact Hlen |].
    intros k. rewrite finishTrace_lookup, finishTrace_order.
    destruct (decide (j = k)); [|apply Hkeys].
    intros [t Ht]. apply Hkeys. destruct (getTrace k st); [eauto | discriminate].
  - split; assumption.
Qed.

Lemma bounded_run (calls : list call) (st : TraceStore) :
  bounded st -> bounded (run calls st).
Proof.
  revert st. induction calls as [|c calls IH]; intros st Hb; [exact Hb |].
  apply IH, bounded_step, Hb.
Qed.

Lemma bounded_empty : bounded emptyStore.
Proof.
  split; [simpl; lia |]. intros k [t Ht]. unfold getTrace in Ht. simpl in Ht.
  rewrite lookup_empty in Ht. discriminate.
Qed.

Lemma bounded_size (st : TraceStore) :
  bounded st -> (size (traces st) ≤ S MAX_TRACES)%nat.
Proof.
  intros [Hlen Hkeys].
  assert (dom (traces st) ⊆ ({[""]} ∪ list_to_set (order st) : gset string)) as Hsub.
  { intros k Hk. apply elem_of_dom in Hk. apply elem_of_union.
    destruct (Hkeys k Hk) as [->|Hin].
    - left. apply elem_of_singleton. reflexivity.
    - right. apply elem_of_list_to_set. exact Hin. }
  apply subseteq_size in Hsub. rewrite size_dom, size_union_alt, size_singleton in Hsub.
  assert (list_to_set (order st) ∖ {[""]} ⊆ (list_to_set (order st) : gset string)) as Hd
    by (intros y [Hy _]%elem_of_difference; exact Hy).
  apply subseteq_size in Hd.
  pose proof (size_list_to_set_le (order st)). lia.
Qed.

End StoreSteps.

(** X2.  For every sequence of calls on the fresh store, whatever the ids
    (repeated, empty): the order list has at most [MAX_TRACES] ids, every
    key of the map other than the empty string is in the order list, and
    the map has at most [MAX_TRACES + 1] entries. *)
Theorem store_bounds_on_every_run `{Value.Builtins} (calls : list Traces.call) :
  let st := Traces.run calls Traces.emptyStore in
  (length (Traces.order st) ≤ Traces.MAX_TRACES)%nat /\
  (forall k, is_Some (Traces.getTrace k st) -> k = "" \/ k ∈ Traces.order st) /\
  (size (Traces.traces st) ≤ S Traces.MAX_TRACES)%nat.
Proof.
  intros st. pose proof (bounded_run calls _ bounded_empty) as Hb. fold st in Hb.
  split; [apply Hb |]. split; [apply Hb | apply bounded_size, Hb].
Qed.

(** X3.  [appendTraceEvent] and [finishTrace] never evict and never
    create: they leave the order list and the set of stored ids as they
    were, leave every trace under another id untouched, and return the
    store unchanged when the id is unknown. *)
Theorem append_and_finish_keep_ids `{Value.Builtins}
    (st : Traces.TraceStore) (i : string) (e : Traces.TraceEvent) (now : Z) :
  let sa := Traces.appendTraceEvent i e st in
  let sf := Traces.finishTrace i now st in
  (Traces.order sa = Traces.order st /\ Traces.order sf = Traces.order st) /\
  (dom (Traces.traces sa) = dom (Traces.traces st) /\
   dom (Traces.traces sf) = dom (Traces.traces st)) /\
  (forall j, j <> i ->
     Traces.getTrace j sa = Traces.getTrace j st /\
     Traces.getTrace j sf = Traces.getTrace j st) /\
  (Traces.getTrace i st = None -> sa = st /\ sf = st).
Proof.
  intros sa sf. subst sa sf.
  split; [split; [apply appendTraceEvent_order | apply finishTrace_order] |].
  split.
  - split; apply set_eq; intros k; rewrite !elem_of_dom;
      fold (Traces.getTrace k st).
    + fold (Traces.getTrace k (Traces.appendTraceEvent i e st)).
      rewrite appendTraceEvent_lookup. destruct (decide (i = k)); [|reflexivity].
      destruct (Traces.getTrace k st); simpl; split; intros [? ?]; eauto; discriminate.
    + fold (Traces.getTrace k (Traces.finishTrace i now st)).
      rewrite finishTrace_lookup. destruct (decide (i = k)); [|reflexivity].
      destruct (Traces.getTrace k st); simpl; split; intros [? ?]; eauto; discriminate.
  - split.
    + intros j Hj. rewrite appendTraceEvent_lookup, finishTrace_lookup.
      destruct (decide (i = j)); [congruence | split; reflexivity].
    + unfold Traces.getTrace, Traces.appendTraceEvent, Traces.finishTrace.
      intros ->. split; reflexivity.
Qed.

(** X4.  Events are append-only.  Over every sequence of calls that does
    not start the id [i] again, a trace of [i] that is still in the store
    keeps its id, prompt, model, sandbox id and start time, has the events
    it had followed by the new ones, and keeps a finish timestamp once it
    has one. *)
Theorem events_are_append_only `{Value.Builtins}
    (calls : list Traces.call) (st : Traces.TraceStore) (i : string)
    (t t' : Traces.AgentTrace) :
  i ∉ Traces.startedIds calls ->
  Traces.getTrace i st = Some t ->
  Traces.getTrace i (Traces.run calls st) = Some t' ->
  TraceProps.header t' = TraceProps.header t /\
  Traces.events t `prefix_of` Traces.events t' /\
  (is_Some (Traces.finishedAt t) -> is_Some (Traces.finishedAt t')).
Proof.
  intros Hi Ht Ht'. destruct (run_continues calls st i t' Hi Ht') as (t0 & Ht0 & C).
  rewrite Ht in Ht0. injection Ht0 as <-. exact C.
Qed.

(** X5.  A trace that is not in the store does not come back by itself:
    over every sequence of calls that does not start the id [i], an id
    that [getTrace] does not find stays not found. *)
Theorem evicted_trace_stays_gone `{Value.Builtins}
    (calls : list Traces.call) (st : Traces.TraceStore) (i : string) :
  i ∉ Traces.startedIds calls ->
  Traces.getTrace i st = None ->
  Traces.getTrace i (Traces.run calls st) = None.
Proof.
  intros Hi Hn. destruct (Traces.getTrace i (Traces.run calls st)) as [t'|] eqn:Ht';
    [|reflexivity].
  destruct (run_continues calls st i t' Hi Ht') as (t0 & Ht0 & _). congruence.
Qed.


(** X7.  Starting again the oldest id of a full store loses the new
    trace at once: when the order list has [MAX_TRACES] ids and begins
    with a non-empty [i], after [startTrace] of [i] the id is the last of
    the order list and [getTrace] does not find it. *)
Theorem restart_of_oldest_is_lost
    (st : Traces.TraceStore) (i p m s : string) (now : Z) (rest : list string) :
  Traces.order st = i :: rest ->
  length (Traces.order st) = Traces.MAX_TRACES ->
  i <> "" ->
  Traces.getTrace i (Traces.startTrace i p m s now st) = None /\
  Traces.order (Traces.startTrace i p m s now st) = rest ++ [i].
Proof.
  intros Ho Hlen Hi. rewrite startTrace_lookup, startTrace_order, Ho in *.
  cbn [length] in Hlen.
  assert (length ((i :: rest) ++ [i]) - Traces.MAX_TRACES = 1)%nat as Hn
    by (rewrite length_app; unfold Traces.MAX_TRACES in *; simpl; lia).
  split.
  - destruct (decide _) as [_|Hne]; [reflexivity |]. exfalso. apply Hne.
    split; [exact Hi |]. unfold TraceProps.shifted. rewrite Hn. simpl.
    apply list_elem_of_singleton. reflexivity.
  - rewrite Hn. reflexivity.
Qed.

(** ** What a request leaves behind *)

Section RequestFacts.
Import JS Value Traces TraceProps Route RouteSpec RouteProps.
Context `{Builtins}.

Lemma appendAll_app (t : string) (es fs : list TraceEvent) (st : TraceStore) :
  appendAll t (es ++ fs) st = appendAll t fs (appendAll t es st).
Proof. apply foldl_app. Qed.

Lemma appendAll_lookup (t : string) (events : list TraceEvent) (st : TraceStore)
    (tr : AgentTrace) :
  getTrace t st = Some tr ->
  getTrace t (appendAll t events st) =
  Some {| id := id tr; prompt := prompt tr; model := model tr;
          sandboxId := sandboxId tr; startedAt := startedAt tr;
          finishedAt := finishedAt tr;
          events := Traces.events tr ++ map storedEvent events |}.
Proof.
  revert st tr. induction events as [|e events IH]; intros st tr Ht.
  - simpl. rewrite app_nil_r, Ht. destruct tr; reflexivity.
  - cbn [appendAll foldl]. fold (appendAll t events (appendTraceEvent t e st)).
    rewrite (IH _ (pushEvent (storedEvent e) tr)).
    + simpl. rewrite <- app_assoc. reflexivity.
    + rewrite appendTraceEvent_lookup. destruct (decide (t = t)); [|contradiction].
      rewrite Ht. reflexivity.
Qed.

Lemma pump_without_cancel (w : World) (t sb : string) (fin : StreamEnd)
    (parts : list (StreamPart * Z)) (k : nat) (s : State) :
  cancelAt w = None ->
  closed s = false ->
  pump w t sb fin k parts s =
  ({| store := appendAll t (toolEvents parts) (store s);
      closed := false;
      effects := effects s ++ map Enqueued (texts parts) |},
   match fin with Done => None | IterationThrows message => Some message end).
Proof.
  intros Hc. revert k s. induction parts as [|[part now] rest IH]; intros k s Hs.
  - simpl. unfold cancelIfDue. rewrite Hc.
    destruct (decide (None = Some k)); [discriminate |].
    rewrite app_nil_r. destruct s as [st c e]. simpl in Hs. subst c.
    destruct fin; reflexivity.
  - cbn [pump]. unfold cancelIfDue. rewrite Hc.
    destruct (decide (None = Some k)); [discriminate |].
    destruct part; simpl; rewrite ?Hs; rewrite IH by exact Hs; simpl;
      rewrite <- ?app_assoc; reflexivity.
Qed.

Lemma POST_streams (w : World) (st : TraceStore) (prompt sb : string)
    (parts : list (StreamPart * Z)) (fin : StreamEnd) :
  streams w prompt sb parts fin ->
  POST w st =
  (TextStream (uuid w),
   start w (uuid w) sb parts fin
     {| store := startTrace (uuid w) prompt MODEL sb (atStart (clock w)) st;
        closed := false; effects := [SandboxCreated sb] |}).
Proof.
  intros (Hp & Hk & Hc & Ha). unfold POST. rewrite Hp, Hk, Hc, Ha. reflexivity.
Qed.

(** The store operations of the loop, the [cancel] callback and the
    [catch] block are appends and finishes. *)
Lemma cancelIfDue_store (w : World) (t sb : string) (k : nat) (s : State) :
  exists calls, startedIds calls = [] /\
    store (cancelIfDue w t sb k s) = run calls (store s).
Proof.
  unfold cancelIfDue, cancel. destruct (decide _).
  - exists [CallFinish t (atCancel (clock w))]. split; [reflexivity |].
    unfold stopSandbox. destruct (stopRejects w); reflexivity.
  - exists []. split; reflexivity.
Qed.

Lemma handlePart_store (t : string) (part : StreamPart) (now : Z) (s s' : State) :
  handlePart t part now s = inr s' ->
  exists calls, startedIds calls = [] /\ store s' = run calls (store s).
Proof.
  destruct part as [text|c n input|c n output|c n error|c n|]; simpl.
  - destruct (closed s); [discriminate |]. intros [= <-]. exists []. split; reflexivity.
  - intros [= <-]. exists [CallAppend t (ToolCall c n input now)]. split; reflexivity.
  - intros [= <-]. exists [CallAppend t (ToolResult c n output now)]. split; reflexivity.
  - intros [= <-]. exists [CallAppend t (ToolError (Some c) (Some n) error now)].
    split; reflexivity.
  - intros [= <-]. exists [CallAppend t (ToolOutputDenied c n now)]. split; reflexivity.
  - intros [= <-]. exists []. split; reflexivity.
Qed.

Lemma run_app (cs ds : list call) (st : TraceStore) :
  run (cs ++ ds) st = run ds (run cs st).
Proof. apply foldl_app. Qed.

Lemma pump_store (w : World) (t sb : string) (fin : StreamEnd)
    (parts : list (StreamPart * Z)) (k : nat) (s : State) :
  exists calls, startedIds calls = [] /\
    store (pump w t sb fin k parts s).1 = run calls (store s).
Proof.
  revert k s. induction parts as [|[part now] rest IH]; intros k s; cbn [pump].
  - destruct fin; apply cancelIfDue_store.
  - destruct (cancelIfDue_store w t sb k s) as (c1 & S1 & E1).
    destruct (handlePart t part now _) as [m|s'] eqn:Hh; cbn [fst].
    + eauto.
    + destruct (handlePart_store _ _ _ _ _ Hh) as (c2 & S2 & E2).
      destruct (IH (S k) s') as (c3 & S3 & E3).
      exists (c1 ++ c2 ++ c3). split.
      * rewrite !startedIds_app, S1, S2, S3. reflexivity.
      * rewrite E3, E2, E1, !run_app. reflexivity.
Qed.

Lemma start_store (w : World) (t sb : string) (parts : list (StreamPart * Z))
    (fin : StreamEnd) (s : State) :
  exists calls, startedIds calls = [] /\
    store (start w t sb parts fin s) =
    finishTrace t (atFinish (clock w)) (run calls (store s)).
Proof.
  unfold start. destruct (pump_store w t sb fin parts 0 s) as (c1 & S1 & E1).
  destruct (pump w t sb fin 0 parts s) as [s1 thrown]. cbn [fst] in E1.
  exists (c1 ++ match thrown with
                | Some message =>
                    [CallAppend t (ToolError None None message (atCatch (clock w)))]
                | None => []
                end).
  split; [rewrite startedIds_app, S1; destruct thrown; reflexivity |].
  rewrite run_app, <- E1.
  match goal with |- store (if closed ?x then _ else _) = _ => set (s2 := x) end.
  assert (store s2 = finishTrace t (atFinish (clock w))
                       (run match thrown with
                            | Some message =>
                                [CallAppend t (ToolError None None message (atCatch (clock w)))]
                            | None => []
                            end (store s1))) as E2
    by (subst s2; destruct thrown; reflexivity).
  destruct (closed s2); [exact E2 |].
  rewrite <- E2. unfold stopSandbox. destruct (stopRejects w); reflexivity.
Qed.

(** Appends and finishes keep a stored trace and continue it. *)
Lemma run_keeps (calls : list call) (st : TraceStore) (i : string) (t : AgentTrace) :
  startedIds calls = [] ->
  getTrace i st = Some t ->
  exists t', getTrace i (run calls st) = Some t' /\ continues t t'.
Proof.
  revert st t. induction calls as [|c calls IH]; intros st t Hs Ht.
  - eauto using continues_refl.
  - change (run (c :: calls) st) with (run calls (step st c)).
    destruct c as [j p m s now|j e|j now|j]; [discriminate | | |];
      cbn [startedIds] in Hs; cbn [step].
    + destruct (decide (j = i)) as [->|Hne].
      * destruct (IH (appendTraceEvent i e st) (pushEvent (storedEvent e) t) Hs)
          as (t' & Ht' & C).
        { rewrite appendTraceEvent_lookup. destruct (decide (i = i)); [|contradiction].
          rewrite Ht. reflexivity. }
        eauto using continues_trans, continues_pushEvent.
      * apply IH; [exact Hs |]. rewrite appendTraceEvent_lookup.
        destruct (decide (j = i)); [contradiction | exact Ht].
    + destruct (decide (j = i)) as [->|Hne].
      * destruct (IH (finishTrace i now st) (setFinished now t) Hs) as (t' & Ht' & C).
        { rewrite finishTrace_lookup. destruct (decide (i = i)); [|contradiction].
          rewrite Ht. reflexivity. }
        eauto using continues_trans, continues_setFinished.
      * apply IH; [exact Hs |]. rewrite finishTrace_lookup.
        destruct (decide (j = i)); [contradiction | exact Ht].
    + apply IH; assumption.
Qed.

End RequestFacts.

Section RequestResults.
Import JS Value Traces TraceProps Route RouteSpec RouteProps.
Context `{Builtins}.

Lemma startTrace_finds_fresh (st : TraceStore) (i p m s : string) (now : Z) :
  i ∉ order st ->
  getTrace i (startTrace i p m s now st) = Some (newTrace i p m s now).
Proof.
  intros Hi. rewrite startTrace_lookup. destruct (decide _) as [[_ Hin]|_].
  - exfalso. apply Hi. exact (shifted_of_push _ _ _ Hin).
  - destruct (decide (i = i)); [reflexivity | contradiction].
Qed.

Lemma start_without_cancel (w : World) (t sb : string)
    (parts : list (StreamPart * Z)) (fin : StreamEnd) (s : State) :
  cancelAt w = None ->
  closed s = false ->
  start w t sb parts fin s =
  {| store := finishTrace t (atFinish (clock w))
                (appendAll t (toolEvents parts ++ caught w fin) (store s));
     closed := true;
     effects := effects s ++ map Enqueued (texts parts) ++
                StreamClosed :: stopEffects w sb |}.
Proof.
  intros Hc Hs. unfold start. rewrite (pump_without_cancel w t sb fin parts 0 s Hc Hs).
  rewrite appendAll_app. unfold stopSandbox, stopEffects, emit, onStore, setClosed.
  destruct fin, (stopRejects w); simpl; rewrite <- ?app_assoc; reflexivity.
Qed.

End RequestResults.

(** X8.  A request that reaches the response stream and is not cancelled
    forwards every text delta to the stream, in stream order and nothing
    else, then closes the stream and stops the sandbox, once; a failing
    [stop()] is logged after that. *)
Theorem POST_forwards_text_in_order `{Value.Builtins}
    (w : Route.World) (st : Traces.TraceStore) (prompt sb : string)
    (parts : list (Route.StreamPart * Z)) (fin : Route.StreamEnd) :
  RouteProps.streams w prompt sb parts fin ->
  Route.cancelAt w = None ->
  (Route.POST w st).1 = Route.TextStream (Route.uuid w) /\
  Route.effects (Route.POST w st).2 =
  Route.SandboxCreated sb ::
  map Route.Enqueued (RouteProps.texts parts) ++
  Route.StreamClosed :: RouteProps.stopEffects w sb.
Proof.
  intros Hs Hc. rewrite (POST_streams w st prompt sb parts fin Hs). cbn [fst snd].
  split; [reflexivity |]. rewrite start_without_cancel by (exact Hc || reflexivity).
  reflexivity.
Qed.

(** X9.  A request that reaches the response stream, is not cancelled
    and has a trace id that is not in the order list leaves a finished
    trace with one event for each tool part, in stream order, each stored
    as [appendTraceEvent] stores it, followed by the event of the [catch]
    block when the iteration threw. *)
Theorem POST_records_tool_events_in_order `{Value.Builtins}
    (w : Route.World) (st : Traces.TraceStore) (prompt sb : string)
    (parts : list (Route.StreamPart * Z)) (fin : Route.StreamEnd) :
  RouteProps.streams w prompt sb parts fin ->
  Route.cancelAt w = None ->
  Route.uuid w ∉ Traces.order st ->
  Traces.getTrace (Route.uuid w) (Route.store (Route.POST w st).2) =
  Some (RouteProps.finishedTrace w prompt sb
          (map Traces.storedEvent
             (RouteProps.toolEvents parts ++ RouteProps.caught w fin))).
Proof.
  intros Hs Hc Hu. rewrite (POST_streams w st prompt sb parts fin Hs). cbn [snd].
  rewrite start_without_cancel by (exact Hc || reflexivity). cbn [Route.store].
  rewrite finishTrace_lookup. destruct (decide _) as [_|]; [|contradiction].
  rewrite (appendAll_lookup _ _ _ _ (startTrace_finds_fresh st _ _ _ _ _ Hu)).
  reflexivity.
Qed.

(** X10.  For a request that reaches the response stream and ends by
    completion, by an iteration error or by a cancellation that arrives
    while the loop is running, when the trace id is not in the order list
    beforehand: the lookup route answers 200 for the id of the response,
    with a trace that carries the trimmed prompt, the model, the sandbox
    id and the start time of the request and whose finish timestamp is the
    one of the [finally] block. *)
Theorem POST_trace_is_retrievable `{Value.Builtins}
    (w : Route.World) (st : Traces.TraceStore) (prompt sb : string)
    (parts : list (Route.StreamPart * Z)) (fin : Route.StreamEnd) :
  RouteProps.streams w prompt sb parts fin ->
  RouteProps.cancel_in_loop w parts ->
  Route.uuid w ∉ Traces.order st ->
  exists t,
    TraceRoute.GET (Route.uuid w) (Route.store (Route.POST w st).2) =
    TraceRoute.Found 200 t /\
    TraceProps.header t =
    (Route.uuid w, prompt, Route.MODEL, sb, Route.atStart (Route.clock w)) /\
    Traces.finishedAt t = Some (Route.atFinish (Route.clock w)).
Proof.
  intros Hs _ Hu. rewrite (POST_streams w st prompt sb parts fin Hs). cbn [snd].
  destruct (start_store w (Route.uuid w) sb parts fin
              {| Route.store := Traces.startTrace (Route.uuid w) prompt Route.MODEL sb
                                  (Route.atStart (Route.clock w)) st;
                 Route.closed := false;
                 Route.effects := [Route.SandboxCreated sb] |})
    as (calls & Hcalls & ->).
  cbn [Route.store].
  destruct (run_keeps calls _ _ _ Hcalls
              (startTrace_finds_fresh st (Route.uuid w) prompt Route.MODEL sb
                 (Route.atStart (Route.clock w)) Hu))
    as (t' & Ht' & Hh & _ & _).
  exists (Traces.setFinished (Route.atFinish (Route.clock w)) t').
  unfold TraceRoute.GET. rewrite finishTrace_lookup.
  destruct (decide _) as [_|]; [|contradiction]. rewrite Ht'.
  split; [reflexivity |]. split; [exact Hh | reflexivity].
Qed.

(** X11.  When [agent.stream] throws before streaming, with a trace id
    that is not in the order list beforehand: the response is the 500
    error, the error is logged, the sandbox is stopped once, and the store
    keeps a finished trace of the request without events. *)
Theorem POST_failure_before_streaming `{Value.Builtins}
    (w : Route.World) (st : Traces.TraceStore) (prompt sb message : string) :
  Route.requestSchema (default Value.JNull (Route.json w)) = Some prompt ->
  JS.truthy (default "" (Route.apiKey w)) = true ->
  Route.created w = JS.Returned (Some sb) ->
  Route.agentStream w = JS.Threw message ->
  Route.uuid w ∉ Traces.order st ->
  (Route.POST w st).1 = Route.JsonError 500 "Agent failed to run in sandbox." /\
  Route.effects (Route.POST w st).2 =
  [Route.SandboxCreated sb; Route.ErrorLogged message] ++ RouteProps.stopEffects w sb /\
  Traces.getTrace (Route.uuid w) (Route.store (Route.POST w st).2) =
  Some (RouteProps.finishedTrace w prompt sb []).
Proof.
  intros Hp Hk Hc Ha Hu. unfold Route.POST. rewrite Hp, Hk, Hc, Ha.
  unfold Route.failed. cbn [negb fst snd]. split; [reflexivity |]. split.
  - unfold Route.stopSandbox, RouteProps.stopEffects.
    destruct (Route.stopRejects w); reflexivity.
  - assert (forall s, Route.store (Route.stopSandbox w sb s) = Route.store s) as Hst
      by (intros s; unfold Route.stopSandbox; destruct (Route.stopRejects w); reflexivity).
    cbv beta iota zeta. rewrite Hst. cbn [Route.store Route.onStore Route.emit].
    rewrite finishTrace_lookup. destruct (decide _) as [_|]; [|contradiction].
    rewrite (startTrace_finds_fresh st _ _ _ _ _ Hu). reflexivity.
Qed.

(** X12.  When [Sandbox.create] rejects or gives no sandbox: the
    response is the 500 error, the error is logged, nothing else happens
    (no sandbox is created or stopped, nothing is enqueued), no trace is
    started, and a store that does not know the trace id is unchanged. *)
Theorem POST_without_backend `{Value.Builtins}
    (w : Route.World) (st : Traces.TraceStore) (prompt : string) :
  Route.requestSchema (default Value.JNull (Route.json w)) = Some prompt ->
  JS.truthy (default "" (Route.apiKey w)) = true ->
  (exists message, Route.created w = JS.Threw message) \/
  Route.created w = JS.Returned None ->
  (Route.POST w st).1 = Route.JsonError 500 "Agent failed to run in sandbox." /\
  (exists message, Route.effects (Route.POST w st).2 = [Route.ErrorLogged message]) /\
  Traces.order (Route.store (Route.POST w st).2) = Traces.order st /\
  (Traces.getTrace (Route.uuid w) st = None ->
   Route.store (Route.POST w st).2 = st).
Proof.
  intros Hp Hk Hc. unfold Route.POST. rewrite Hp, Hk.
  assert (forall message,
            (Route.failed w (Route.uuid w) None message
               {| Route.store := st; Route.closed := false; Route.effects := [] |}).1 =
            Route.JsonError 500 "Agent failed to run in sandbox." /\
            (exists m, Route.effects
                         (Route.failed w (Route.uuid w) None message
                            {| Route.store := st; Route.closed := false;
                               Route.effects := [] |}).2 = [Route.ErrorLogged m]) /\
            Traces.order (Route.store
                            (Route.failed w (Route.uuid w) None message
                               {| Route.store := st; Route.closed := false;
                                  Route.effects := [] |}).2) = Traces.order st /\
            (Traces.getTrace (Route.uuid w) st = None ->
             Route.store (Route.failed w (Route.uuid w) None message
                            {| Route.store := st; Route.closed := false;
                               Route.effects := [] |}).2 = st)) as Hf.
  { intros message. unfold Route.failed. cbn.
    split; [reflexivity |]. split; [eexists; reflexivity |].
    split; [apply finishTrace_order |].
    unfold Traces.getTrace, Traces.finishTrace. intros ->. reflexivity. }
  destruct Hc as [[message ->]| ->]; apply Hf.
Qed.

(** ** The earlier handler *)

(** X13.  The handler that uses [agent.generate]: on every request a
    sandbox that was created is stopped exactly once, and nothing is
    stopped that was not created; the response is the generated text
    exactly when the body is valid, the credential is set, the sandbox was
    created and the generation returned. *)
Theorem POST_generate_stops_exactly_once (w : RouteV1.World) (sb : string) :
  let effs := (RouteV1.POST w).2 in
  RouteV1.occurrences (Route.SandboxStopped sb) effs =
  RouteV1.occurrences (Route.SandboxCreated sb) effs /\
  (RouteV1.occurrences (Route.SandboxCreated sb) effs ≤ 1)%nat /\
  (forall text,
     (RouteV1.POST w).1 = RouteV1.JsonText text <->
     Route.requestSchema (default Value.JNull (RouteV1.json w)) <> None /\
     JS.truthy (default "" (RouteV1.apiKey w)) = true /\
     (exists id, RouteV1.created w = JS.Returned (Some id)) /\
     RouteV1.generate w = JS.Returned text).
Proof.
  unfold RouteV1.POST, RouteV1.attempt, RouteV1.release, RouteV1.occurrences.
  destruct (Route.requestSchema _) as [prompt|];
    [|simpl; split; [reflexivity |]; split; [lia |];
      intros text; split; [discriminate | intros [Hn _]; congruence]].
  destruct (JS.truthy _); cbn [negb];
    [|simpl; split; [reflexivity |]; split; [lia |];
      intros text; split; [discriminate | intros (_ & Hk & _); discriminate]].
  destruct (RouteV1.created w) as [[id|]|message].
  - destruct (RouteV1.generate w) as [text'|message'], (RouteV1.stopRejects w);
      cbn [fst snd app]; rewrite ?filter_cons, ?filter_nil;
      repeat (destruct (decide _) as [?|?]; try discriminate; try congruence);
      cbn [length];
      (split; [reflexivity |]; split; [lia |]);
      intros text; split;
      try discriminate;
      try (intros [= <-]; split; [discriminate |]; split; [reflexivity |];
           split; [eauto | reflexivity]);
      try (intros (_ & _ & _ & [= <-]); reflexivity);
      try (intros (_ & _ & _ & Hg); discriminate Hg).
  - cbn [fst snd app]. rewrite ?filter_cons, ?filter_nil.
    repeat (destruct (decide _) as [?|?]; try discriminate).
    split; [reflexivity |]. split; [simpl; lia |].
    intros text; split; [discriminate | intros (_ & _ & [id Hid] & _); discriminate].
  - cbn [fst snd app]. rewrite ?filter_cons, ?filter_nil.
    repeat (destruct (decide _) as [?|?]; try discriminate).
    split; [reflexivity |]. split; [simpl; lia |].
    intros text; split; [discriminate | intros (_ & _ & [id Hid] & _); discriminate].
Qed.

(** ** The tools *)

Section ToolMore.
Import JS Value Filter Fetch FetchSpec Tool ToolSpec ToolProps.

Lemma or_else_nonempty (a b : string) : b <> "" -> or_else a b <> "".
Proof. destruct a; simpl; [auto | discriminate]. Qed.

Lemma runCode_outcome (b : Backend) (code : string) :
  match b "node" ["-e"; code] with
  | Returned _ => exists s, runCode b code = Returned s /\ s <> ""
  | Threw e => runCode b code = Threw e
  end.
Proof.
  unfold runCode. destruct (b "node" ["-e"; code]) as [result|e]; simpl; [|reflexivity].
  destruct (decide _); eexists; (split; [reflexivity |]).
  - discriminate.
  - apply or_else_nonempty. discriminate.
Qed.

End ToolMore.

(** X14.  [fetchJson] returns a value exactly when the URL parses, has
    the scheme http or https and a host that the filter lets pass, the
    response has a 2xx status and a body of at most 200,000 characters
    that parses as JSON; the value is then the object of the final URL,
    the status and the parsed data. *)
Theorem fetchJson_returns_iff (net : Fetch.Net) (url : string) (v : Value.jsvalue) :
  Fetch.execute net url = JS.Returned v <->
  exists parsed r body data,
    FetchSpec.admitted net url parsed /\
    Fetch.fetch net (Fetch.href parsed) = inr r /\
    Fetch.ok r = true /\
    Fetch.text r = inr body /\
    N.of_nat (String.length body) <= 200000 /\
    Fetch.JSON_parse net body = Some data /\
    v = Value.JObj [("url", Value.JStr (Fetch.href parsed));
                    ("status", Value.JNum (Fetch.status r));
                    ("data", data)].
Proof.
  unfold Fetch.execute. split.
  - unfold Fetch.fetchJson.
    destruct (Fetch.parseURL net url) as [parsed|] eqn:Hp; [|discriminate].
    destruct (bool_decide _) eqn:Hs; [|discriminate]. cbn [negb].
    destruct (Filter.isPrivateHostname _) eqn:Hh; [discriminate |].
    destruct (Fetch.fetch net _) as [|r] eqn:Hf; [discriminate |].
    destruct (Fetch.ok r) eqn:Hok; [|discriminate]. cbn [negb].
    destruct (Fetch.text r) as [|body] eqn:Ht; [discriminate |].
    destruct (N.ltb_spec Fetch.MAX_BODY (N.of_nat (String.length body))) as [|Hlen];
      [discriminate |].
    destruct (Fetch.JSON_parse net body) as [data|] eqn:Hj; [|discriminate].
    intros [= <-]. exists parsed, r, body, data.
    split; [split; [exact Hp | split; [exact (bool_decide_eq_true_1 _ Hs) | exact Hh]] |].
    unfold Fetch.MAX_BODY in Hlen. auto 10.
  - intros (parsed & r & body & data & Ha & Hf & Hok & Ht & Hlen & Hj & ->).
    rewrite (admitted_passes_guards _ _ _ Ha), Hf, Hok, Ht. cbn [negb].
    unfold Fetch.MAX_BODY.
    destruct (N.ltb_spec 200000 (N.of_nat (String.length body))); [lia |].
    rewrite Hj. reflexivity.
Qed.


(** X16.  [runInSandbox] never hands the model an empty result and never
    invents an error: it either returns a string that is not empty, or it
    rejects with the error of a backend command that rejected. *)
Theorem runInSandbox_result_or_backend_error
    (b : Tool.Backend) (code : string) (packages : option (list string)) :
  (exists s, Tool.execute b code packages = JS.Returned s /\ s <> "") \/
  (exists e cmd args,
     Tool.execute b code packages = JS.Threw e /\ b cmd args = JS.Threw e).
Proof.
  assert ((exists s, Tool.runCode b code = JS.Returned s /\ s <> "") \/
          (exists e cmd args, Tool.runCode b code = JS.Threw e /\ b cmd args = JS.Threw e)) as Hrun.
  { pose proof (runCode_outcome b code) as Hr.
    destruct (b "node" ["-e"; code]) as [result|e] eqn:Hn; [left; exact Hr |].
    right. exists e, "node", ["-e"; code]. split; assumption. }
  unfold Tool.execute. destruct packages as [[|p ps]|]; [exact Hrun | | exact Hrun].
  destruct (b "npm" ["init"; "-y"]) as [init|e] eqn:Hi; simpl;
    [|right; exists e, "npm", ["init"; "-y"]; split; [reflexivity | exact Hi]].
  destruct (b "npm" (Tool.installArgs (p :: ps))) as [install|e] eqn:Hn; simpl;
    [|right; exists e, "npm", (Tool.installArgs (p :: ps)); split; [reflexivity | exact Hn]].
  destruct (decide _); [|exact Hrun].
  left. eexists. split; [reflexivity | discriminate].
Qed.



(** ** The filter on bracketed hosts, and the request schema *)

Section FilterMore.
Import JS Filter FilterSpec Value Route RouteProps.

Lemma bracket_not_ipv4 (r : string) : ipv4Match (String "[" r) = None.
Proof. reflexivity. Qed.

Lemma bracket_not_prefixed (r p : string) (c : ascii) :
  c <> "["%char ->
  startsWith (toLowerCase (String "[" r)) (String c p) = false.
Proof.
  intros Hc. cbn [toLowerCase startsWith].
  change (lowerChar "[") with "["%char.
  destruct (decide (c = "["%char)); [contradiction | reflexivity].
Qed.

Lemma trimStart_head (s : string) : headNotSpace (trimStart s).
Proof.
  induction s as [|c s IH]; simpl; [exact I |].
  destruct (isWhiteSpace c) eqn:Hc; [exact IH | exact Hc].
Qed.

Lemma trimEnd_keeps_head (s : string) :
  headNotSpace s -> trimStart (trimEnd s) = trimEnd s.
Proof.
  destruct s as [|c r]; [reflexivity |]. simpl. intros Hc.
  destruct (trimEnd r); rewrite ?Hc; simpl; rewrite Hc; reflexivity.
Qed.

Lemma trimEnd_idempotent (s : string) : trimEnd (trimEnd s) = trimEnd s.
Proof.
  induction s as [|c s IH]; [reflexivity |]. simpl.
  destruct (trimEnd s) as [|d t] eqn:Ht.
  - destruct (isWhiteSpace c) eqn:Hc; [reflexivity |]. simpl. rewrite Hc. reflexivity.
  - change (trimEnd (String c (String d t))) with
      (match trimEnd (String d t) with
       | EmptyString => if isWhiteSpace c then EmptyString else String c EmptyString
       | String _ _ as u => String c u
       end).
    rewrite IH. reflexivity.
Qed.

Lemma trim_idempotent (s : string) : trim (trim s) = trim s.
Proof.
  unfold trim. rewrite (trimEnd_keeps_head _ (trimStart_head s)).
  apply trimEnd_idempotent.
Qed.

End FilterMore.

(** X18.  A hostname that starts with an opening bracket, the way a URL
    spells an IPv6 literal, is flagged by the suffix rules only: neither
    the list of names, nor the IPv4 rule, nor the prefix rule for [fe80:],
    [fc] and [fd] applies to it. *)
Theorem bracketed_host_only_suffix_rules (h : string) :
  FilterSpec.starts_with h "[" ->
  (Filter.isPrivateHostname h = true <->
   FilterSpec.ends_in h ".local" \/ FilterSpec.ends_in h ".internal").
Proof.
  intros [r ->]. change ("[" +:+ r) with (String "[" r).
  rewrite <- !endsWith_spec. unfold Filter.isPrivateHostname.
  case_bool_decide as Hn;
    [apply private_names_spec in Hn as [Hn|[Hn|Hn]]; discriminate Hn |].
  rewrite bracket_not_ipv4.
  rewrite !bracket_not_prefixed by discriminate.
  destruct (JS.endsWith _ ".local"), (JS.endsWith _ ".internal"),
    (JS.includes _ _); simpl; intuition discriminate.
Qed.

(** X19.  The prompt that [requestSchema] gives is the trimmed prompt of
    the body: it has 1 to 2000 characters, trimming it again changes
    nothing, and a body made of it parses to the same prompt. *)
Theorem requestSchema_gives_trimmed_prompt (body : Value.jsvalue) (prompt : string) :
  Route.requestSchema body = Some prompt ->
  (exists fields s,
     body = Value.JObj fields /\
     Route.property "prompt" fields = Some (Value.JStr s) /\
     prompt = JS.trim s) /\
  (1 ≤ String.length prompt ≤ 2000)%nat /\
  JS.trim prompt = prompt /\
  Route.requestSchema (Route.promptBody prompt) = Some prompt.
Proof.
  unfold Route.requestSchema at 1.
  destruct body as [| | | | | |?|fields]; try discriminate.
  destruct (Route.property "prompt" fields) as [[| | | | |s| |]|] eqn:Hp;
    try discriminate.
  destruct (decide _) as [Hlo|]; [|discriminate].
  destruct (decide _) as [Hhi|]; [|discriminate].
  intros [= <-]. split; [eauto |]. split; [lia |].
  split; [apply trim_idempotent |].
  unfold Route.requestSchema, Route.promptBody. cbn [Route.property].
  destruct (decide ("prompt" = "prompt")); [|contradiction].
  rewrite trim_idempotent.
  destruct (decide _); [|contradiction]. destruct (decide _); [|contradiction].
  reflexivity.
Qed.

(** ** The lookup route after evictions *)

(** X20.  With start ids that are pairwise distinct and not the empty
    string, the lookup route answers 404 with [Trace not found.] for
    exactly the ids started before the last [MAX_TRACES] ones, and 200
    with the trace of that id for each of the last [MAX_TRACES]. *)
Theorem GET_after_eviction `{Value.Builtins}
    (calls : list Traces.call) (k : nat) (i : string) :
  NoDup (Traces.startedIds calls) ->
  Forall (fun j => j <> "") (Traces.startedIds calls) ->
  Traces.startedIds calls !! k = Some i ->
  let st := Traces.run calls Traces.emptyStore in
  ((k < length (Traces.startedIds calls) - Traces.MAX_TRACES)%nat ->
   TraceRoute.GET i st = TraceRoute.NotFound 404 "Trace not found.") /\
  ((length (Traces.startedIds calls) - Traces.MAX_TRACES ≤ k)%nat ->
   exists t, TraceRoute.GET i st = TraceRoute.Found 200 t /\ Traces.id t = i).
Proof.
  intros Hnd Hne Hk st.
  pose proof (tracks_evicts_oldest _ _ Hnd (tracks_from_empty calls Hnd Hne) k i Hk)
    as [Hold Hnew].
  unfold TraceRoute.GET. split.
  - intros Hlt. fold st in Hold. rewrite (Hold Hlt). reflexivity.
  - intros Hge. destruct (Hnew Hge) as (t & Ht & Hid). fold st in Ht.
    exists t. rewrite Ht. split; [reflexivity | exact Hid].
Qed.

(** ** The further properties at concrete inputs *)

Section Witnesses.
Import JS Value Traces TraceProps Route RouteProps.

Lemma ids_distinct_nonempty :
  NoDup ("z" :: ids25) /\ Forall (fun j : string => j <> "") ("z" :: ids25).
Proof.
  split; apply (bool_decide_unpack _); vm_compute; exact I.
Defined.

Lemma completes_streams :
  streams completes "What is 44 x 44?" "sbx-1" someParts Done.
Proof. repeat split. Defined.

Lemma breaks_streams :
  streams breaks "What is 44 x 44?" "sbx-1" someParts (IterationThrows "model error").
Proof. repeat split. Defined.

Lemma cancelled_streams :
  streams cancelled "What is 44 x 44?" "sbx-1" someParts Done.
Proof. repeat split. Defined.

Lemma fresh_in_empty (i : string) : i ∉ order emptyStore.
Proof. apply not_elem_of_nil. Defined.

End Witnesses.

Lemma append_and_finish_keep_ids_witness :
  Traces.getTrace "gone" Traces.emptyStore = None /\
  Traces.appendTraceEvent (H := Value.hostBuiltins) "gone"
    (Traces.ToolOutputDenied "c" "fetchJson" 1) Traces.emptyStore = Traces.emptyStore /\
  Traces.finishTrace "gone" 2 Traces.emptyStore = Traces.emptyStore.
Proof.
  split; [reflexivity |].
  exact (proj2 (proj2 (proj2 (append_and_finish_keep_ids (H := Value.hostBuiltins)
                                Traces.emptyStore "gone"
                                (Traces.ToolOutputDenied "c" "fetchJson" 1) 2)))
           eq_refl).
Defined.

Lemma events_are_append_only_witness :
  let st := Traces.startTrace "t" "p" "m" "s" 1 Traces.emptyStore in
  let t := Traces.newTrace "t" "p" "m" "s" 1 in
  let e := Traces.ToolOutputDenied "c" "fetchJson" 2 in
  let calls := [Traces.CallAppend "t" e; Traces.CallStart "u" "p" "m" "s" 3;
                Traces.CallFinish "t" 4] in
  let t' := Traces.setFinished 4 (Traces.pushEvent e t) in
  ("t" ∉ Traces.startedIds calls) /\
  Traces.getTrace "t" st = Some t /\
  Traces.getTrace "t" (Traces.run (H := Value.hostBuiltins) calls st) = Some t' /\
  TraceProps.header t' = TraceProps.header t /\
  Traces.events t `prefix_of` Traces.events t'.
Proof.
  intros st t e calls t'.
  assert ("t" ∉ Traces.startedIds calls) as Hi.
  { apply (bool_decide_unpack _). vm_compute. exact I. }
  assert (Traces.getTrace "t" st = Some t) as Ht by (vm_compute; reflexivity).
  assert (Traces.getTrace "t" (Traces.run (H := Value.hostBuiltins) calls st) = Some t')
    as Ht' by (vm_compute; reflexivity).
  split; [exact Hi |]. split; [exact Ht |]. split; [exact Ht' |].
  destruct (events_are_append_only (H := Value.hostBuiltins) calls st "t" t t' Hi Ht Ht')
    as (Hh & Hp & _).
  split; assumption.
Defined.

Lemma evicted_trace_stays_gone_witness :
  let calls := [Traces.CallAppend "t" (Traces.ToolOutputDenied "c" "fetchJson" 2);
                Traces.CallFinish "t" 4; Traces.CallStart "u" "p" "m" "s" 5] in
  ("t" ∉ Traces.startedIds calls) /\
  Traces.getTrace "t" Traces.emptyStore = None /\
  Traces.getTrace "t" (Traces.run (H := Value.hostBuiltins) calls Traces.emptyStore) = None.
Proof.
  intros calls.
  assert ("t" ∉ Traces.startedIds calls) as Hi.
  { apply (bool_decide_unpack _). vm_compute. exact I. }
  split; [exact Hi |]. split; [reflexivity |].
  exact (evicted_trace_stays_gone (H := Value.hostBuiltins) calls Traces.emptyStore "t"
           Hi eq_refl).
Defined.


Lemma restart_of_oldest_is_lost_witness :
  let st := Traces.run (H := Value.hostBuiltins) (Traces.starts Traces.ids25)
              Traces.emptyStore in
  Traces.order st = "a" :: tail Traces.ids25 /\
  length (Traces.order st) = Traces.MAX_TRACES /\
  "a" <> "" /\
  Traces.getTrace "a" (Traces.startTrace "a" "p" "m" "s" 9 st) = None /\
  Traces.order (Traces.startTrace "a" "p" "m" "s" 9 st) = tail Traces.ids25 ++ ["a"].
Proof.
  intros st.
  assert (Traces.order st = "a" :: tail Traces.ids25) as Ho by (vm_compute; reflexivity).
  assert (length (Traces.order st) = Traces.MAX_TRACES) as Hl by (vm_compute; reflexivity).
  assert ("a" <> "") as Hn by discriminate.
  split; [exact Ho |]. split; [exact Hl |]. split; [exact Hn |].
  exact (restart_of_oldest_is_lost st "a" "p" "m" "s" 9 (tail Traces.ids25) Ho Hl Hn).
Defined.

Lemma POST_forwards_text_in_order_witness :
  RouteProps.streams Route.breaks "What is 44 x 44?" "sbx-1" Route.someParts
    (Route.IterationThrows "model error") /\
  Route.cancelAt Route.breaks = None /\
  Route.effects (Route.POST (H := Value.hostBuiltins) Route.breaks Traces.emptyStore).2 =
  [Route.SandboxCreated "sbx-1"; Route.Enqueued "44 x 44 = "; Route.Enqueued "1936";
   Route.StreamClosed; Route.SandboxStopped "sbx-1"; Route.ErrorLogged "stop failed"].
Proof.
  split; [exact breaks_streams |]. split; [reflexivity |].
  exact (proj2 (POST_forwards_text_in_order (H := Value.hostBuiltins) Route.breaks
                  Traces.emptyStore _ _ _ _ breaks_streams eq_refl)).
Defined.

Lemma POST_records_tool_events_in_order_witness :
  RouteProps.streams Route.breaks "What is 44 x 44?" "sbx-1" Route.someParts
    (Route.IterationThrows "model error") /\
  Route.cancelAt Route.breaks = None /\
  (Route.uuid Route.breaks ∉ Traces.order Traces.emptyStore) /\
  Traces.events <$>
    Traces.getTrace "trace-1"
      (Route.store (Route.POST (H := Value.hostBuiltins) Route.breaks Traces.emptyStore).2) =
  Some [Traces.ToolCall "c1" "runInSandbox"
          (Value.JObj [("code", Value.JStr "console.log(44*44)")]) 110;
        Traces.ToolResult "c1" "runInSandbox" (Value.JStr "1936") 120;
        Traces.ToolError None None "model error" 200].
Proof.
  split; [exact breaks_streams |]. split; [reflexivity |].
  split; [apply fresh_in_empty |].
  exact (f_equal (fmap Traces.events)
           (POST_records_tool_events_in_order (H := Value.hostBuiltins) Route.breaks
              Traces.emptyStore _ _ _ _ breaks_streams eq_refl (fresh_in_empty _))).
Defined.

Lemma POST_trace_is_retrievable_witness :
  RouteProps.streams Route.cancelled "What is 44 x 44?" "sbx-1" Route.someParts Route.Done /\
  RouteProps.cancel_in_loop Route.cancelled Route.someParts /\
  (Route.uuid Route.cancelled ∉ Traces.order Traces.emptyStore) /\
  exists t,
    TraceRoute.GET "trace-1"
      (Route.store (Route.POST (H := Value.hostBuiltins) Route.cancelled
                      Traces.emptyStore).2) = TraceRoute.Found 200 t /\
    Traces.finishedAt t = Some 300%Z.
Proof.
  assert (RouteProps.cancel_in_loop Route.cancelled Route.someParts) as Hc
    by (vm_compute; lia).
  split; [exact cancelled_streams |]. split; [exact Hc |].
  split; [apply fresh_in_empty |].
  destruct (POST_trace_is_retrievable (H := Value.hostBuiltins) Route.cancelled
              Traces.emptyStore _ _ _ _ cancelled_streams Hc (fresh_in_empty _))
    as (t & Hg & _ & Hf).
  exists t. split; [exact Hg | exact Hf].
Defined.

Lemma POST_failure_before_streaming_witness :
  Route.requestSchema (default Value.JNull (Route.json Route.failsEarly)) =
  Some "What is 44 x 44?" /\
  JS.truthy (default "" (Route.apiKey Route.failsEarly)) = true /\
  Route.created Route.failsEarly = JS.Returned (Some "sbx-1") /\
  Route.agentStream Route.failsEarly = JS.Threw "gateway unreachable" /\
  (Route.uuid Route.failsEarly ∉ Traces.order Traces.emptyStore) /\
  Route.effects (Route.POST (H := Value.hostBuiltins) Route.failsEarly
                   Traces.emptyStore).2 =
  [Route.SandboxCreated "sbx-1"; Route.ErrorLogged "gateway unreachable";
   Route.SandboxStopped "sbx-1"].
Proof.
  assert (Route.requestSchema (default Value.JNull (Route.json Route.failsEarly)) =
          Some "What is 44 x 44?") as Hp by reflexivity.
  split; [exact Hp |]. split; [reflexivity |]. split; [reflexivity |].
  split; [reflexivity |]. split; [apply fresh_in_empty |].
  exact (proj1 (proj2 (POST_failure_before_streaming (H := Value.hostBuiltins)
                         Route.failsEarly Traces.emptyStore _ _ _
                         Hp eq_refl eq_refl eq_refl (fresh_in_empty _)))).
Defined.

Lemma POST_without_backend_witness :
  Route.requestSchema (default Value.JNull (Route.json RouteProps.noBackend)) =
  Some "What is 44 x 44?" /\
  JS.truthy (default "" (Route.apiKey RouteProps.noBackend)) = true /\
  Route.created RouteProps.noBackend = JS.Threw "backend unavailable" /\
  (Route.POST (H := Value.hostBuiltins) RouteProps.noBackend Traces.emptyStore).1 =
  Route.JsonError 500 "Agent failed to run in sandbox." /\
  Route.store (Route.POST (H := Value.hostBuiltins) RouteProps.noBackend
                 Traces.emptyStore).2 = Traces.emptyStore.
Proof.
  assert (Route.requestSchema (default Value.JNull (Route.json RouteProps.noBackend)) =
          Some "What is 44 x 44?") as Hp by reflexivity.
  split; [exact Hp |]. split; [reflexivity |]. split; [reflexivity |].
  destruct (POST_without_backend (H := Value.hostBuiltins) RouteProps.noBackend
              Traces.emptyStore _ Hp eq_refl (or_introl (ex_intro _ _ eq_refl)))
    as (Hr & _ & _ & Hs).
  split; [exact Hr | exact (Hs eq_refl)].
Defined.

Lemma fetchJson_returns_iff_witness :
  Fetch.execute (Fetch.cannedNet "api.example.com" 200 "null") "https://api.example.com/" =
  JS.Returned (Value.JObj [("url", Value.JStr "https://api.example.com/");
                           ("status", Value.JNum 200); ("data", Value.JNull)]).
Proof.
  apply (proj2 (fetchJson_returns_iff _ _ _)).
  eexists. exists {| Fetch.status := 200; Fetch.text := inr "null" |}, "null", Value.JNull.
  split.
  { split; [reflexivity |]. split; [|vm_compute; reflexivity].
    apply elem_of_cons. right. apply elem_of_cons. left. reflexivity. }
  split; [reflexivity |]. split; [reflexivity |]. split; [reflexivity |].
  split; [vm_compute; discriminate |]. split; reflexivity.
Defined.



Lemma bracketed_host_only_suffix_rules_witness :
  FilterSpec.starts_with "[fd00::1]" "[" /\
  (Filter.isPrivateHostname "[fd00::1]" = true <->
   FilterSpec.ends_in "[fd00::1]" ".local" \/ FilterSpec.ends_in "[fd00::1]" ".internal").
Proof.
  assert (FilterSpec.starts_with "[fd00::1]" "[") as Hs by (exists "fd00::1]"; reflexivity).
  split; [exact Hs |]. exact (bracketed_host_only_suffix_rules "[fd00::1]" Hs).
Defined.

Lemma requestSchema_gives_trimmed_prompt_witness :
  Route.requestSchema (Route.promptBody "  What is 44 x 44?  ") = Some "What is 44 x 44?" /\
  JS.trim "What is 44 x 44?" = "What is 44 x 44?" /\
  Route.requestSchema (Route.promptBody "What is 44 x 44?") = Some "What is 44 x 44?".
Proof.
  assert (Route.requestSchema (Route.promptBody "  What is 44 x 44?  ") =
          Some "What is 44 x 44?") as Hp by reflexivity.
  split; [exact Hp |].
  exact (proj2 (proj2 (requestSchema_gives_trimmed_prompt _ _ Hp))).
Defined.

Lemma GET_after_eviction_witness :
  let calls := Traces.starts ("z" :: Traces.ids25) in
  NoDup (Traces.startedIds calls) /\
  Forall (fun j : string => j <> "") (Traces.startedIds calls) /\
  Traces.startedIds calls !! 0%nat = Some "z" /\
  TraceRoute.GET "z" (Traces.run (H := Value.hostBuiltins) calls Traces.emptyStore) =
  TraceRoute.NotFound 404 "Trace not found.".
Proof.
  intros calls.
  assert (Traces.startedIds calls = "z" :: Traces.ids25) as Hids by reflexivity.
  assert (NoDup (Traces.startedIds calls)) as Hnd
    by (rewrite Hids; exact (proj1 ids_distinct_nonempty)).
  assert (Forall (fun j : string => j <> "") (Traces.startedIds calls)) as Hne
    by (rewrite Hids; exact (proj2 ids_distinct_nonempty)).
  split; [exact Hnd |]. split; [exact Hne |]. split; [reflexivity |].
  apply (proj1 (GET_after_eviction (H := Value.hostBuiltins) calls 0 "z" Hnd Hne eq_refl)).
  vm_compute. lia.
Defined.

Lemma store_invariant_of_nonempty_ids_witness :
  let calls := Traces.starts ("z" :: Traces.ids25) in
  NoDup (Traces.startedIds calls) /\
  Forall (fun j : string => j <> "") (Traces.startedIds calls) /\
  TraceSpec.bounded_and_aligned
    (Traces.run (H := Value.hostBuiltins) calls Traces.emptyStore).
Proof.
  intros calls.
  assert (Traces.startedIds calls = "z" :: Traces.ids25) as Hids by reflexivity.
  assert (NoDup (Traces.startedIds calls)) as Hnd
    by (rewrite Hids; exact (proj1 ids_distinct_nonempty)).
  assert (Forall (fun j : string => j <> "") (Traces.startedIds calls)) as Hne
    by (rewrite Hids; exact (proj2 ids_distinct_nonempty)).
  split; [exact Hnd |]. split; [exact Hne |].
  exact (store_invariant_of_nonempty_ids (H := Value.hostBuiltins) calls Hnd Hne).
Defined.

(** ** The store invariant after every call *)

(** C10.  For every sequence of calls whose start ids are pairwise
    distinct and, like every id that [randomUUID] gives, not the empty
    string, the store invariant holds after every call of the sequence:
    the map has at most [MAX_TRACES] entries, the order list and the map
    hold exactly the same ids, and right after a [startTrace] the trace
    just started is in the store. *)
Theorem store_invariant_after_every_call `{Value.Builtins}
    (calls done rest : list Traces.call) :
  NoDup (Traces.startedIds calls) ->
  Forall (fun k => k <> "") (Traces.startedIds calls) ->
  calls = done ++ rest ->
  TraceSpec.bounded_and_aligned (Traces.run done Traces.emptyStore) /\
  forall before i p m s now,
    done = before ++ [Traces.CallStart i p m s now] ->
    exists t, Traces.getTrace i (Traces.run done Traces.emptyStore) = Some t /\
              Traces.id t = i.
Proof.
  intros Hnd Hne ->. rewrite startedIds_app in Hnd, Hne.
  apply NoDup_app in Hnd as (Hnd & _ & _). apply Forall_app in Hne as [Hne _].
  pose proof (tracks_from_empty done Hnd Hne) as Htr.
  split; [exact (tracks_bounded_and_aligned _ _ Hnd Htr) |].
  intros before i p m s now Hdone.
  assert (Traces.startedIds done = Traces.startedIds before ++ [i]) as Hids
    by (rewrite Hdone, startedIds_app; reflexivity).
  apply (tracks_evicts_oldest _ _ Hnd Htr (length (Traces.startedIds before)) i).
  - rewrite Hids. apply list_lookup_middle. reflexivity.
  - rewrite Hids, length_app. unfold Traces.MAX_TRACES. simpl. lia.
Qed.

(** C4 on twenty-six starts: the first id is gone, the second is found. *)
Lemma eviction_of_nonempty_ids_witness :
  let calls := Traces.starts ("z" :: Traces.ids25) in
  let st := Traces.run (H := Value.hostBuiltins) calls Traces.emptyStore in
  NoDup (Traces.startedIds calls) /\
  Forall (fun k : string => k <> "") (Traces.startedIds calls) /\
  Traces.getTrace "z" st = None /\
  exists t, Traces.getTrace "a" st = Some t /\ Traces.id t = "a".
Proof.
  intros calls st.
  assert (Traces.startedIds calls = "z" :: Traces.ids25) as Hids by reflexivity.
  assert (NoDup (Traces.startedIds calls)) as Hnd
    by (rewrite Hids; exact (proj1 ids_distinct_nonempty)).
  assert (Forall (fun k : string => k <> "") (Traces.startedIds calls)) as Hne
    by (rewrite Hids; exact (proj2 ids_distinct_nonempty)).
  pose proof (eviction_of_nonempty_ids (H := Value.hostBuiltins) calls Hnd Hne) as Hev.
  split; [exact Hnd |]. split; [exact Hne |]. split.
  - apply (proj1 (Hev 0%nat "z" eq_refl)). vm_compute. lia.
  - apply (proj2 (Hev 1%nat "a" eq_refl)). vm_compute. lia.
Defined.

(** C10 on twenty-six starts, after the last of them. *)
Lemma store_invariant_after_every_call_witness :
  let calls := Traces.starts ("z" :: Traces.ids25) in
  let st := Traces.run (H := Value.hostBuiltins) calls Traces.emptyStore in
  NoDup (Traces.startedIds calls) /\
  Forall (fun k : string => k <> "") (Traces.startedIds calls) /\
  TraceSpec.bounded_and_aligned st /\
  exists t, Traces.getTrace "y" st = Some t /\ Traces.id t = "y".
Proof.
  intros calls st.
  assert (Traces.startedIds calls = "z" :: Traces.ids25) as Hids by reflexivity.
  assert (NoDup (Traces.startedIds calls)) as Hnd
    by (rewrite Hids; exact (proj1 ids_distinct_nonempty)).
  assert (Forall (fun k : string => k <> "") (Traces.startedIds calls)) as Hne
    by (rewrite Hids; exact (proj2 ids_distinct_nonempty)).
  destruct (store_invariant_after_every_call (H := Value.hostBuiltins) calls calls []
              Hnd Hne (eq_sym (app_nil_r calls))) as [Hinv Hlast].
  split; [exact Hnd |]. split; [exact Hne |]. split; [exact Hinv |].
  exact (Hlast (Traces.starts ("z" :: removelast Traces.ids25)) "y" "p" "m" "s" 0%Z
           eq_refl).
Defined.
